(** * RatingNet: encrypted rating aggregation

    A shallow embedding of the [RatingNet] contract
    (contracts/RatingNet.sol, carried in src/backend/hardhat.config.ts) and of
    the submit gate of the web client (src/frontend/src/ui/App.tsx).

    The contract manipulates opaque ciphertext handles through the FHE
    library.  The library is an external dependency; it is modelled in
    [Module FHE] as a ciphertext store indexed by handles, an append-only
    ACL and a log of coprocessor operations.  Contract code is written in a
    small state-and-error monad with a step budget, so that a call may stop
    at any step; [transact] gives a call its transactional meaning. *)

From Stdlib Require Import ZArith NArith PArith Lia List DecimalString DecimalN.
From stdpp Require Import base option numbers gmap sets list strings.

Local Open Scope Z_scope.

(** ** Machine integers *)

Definition wrap32 (z : Z) : Z := z mod 2 ^ 32.
Definition UINT32_MAX : Z := 2 ^ 32 - 1.

(** ** The ciphertext layer *)

(** Account addresses and ciphertext handles are plain numbers; the handle
    [0] is the uninitialised one. *)
Abbreviation address := N (only parsing).
Abbreviation handle := N (only parsing).

Inductive FheType := Bool | Uint8 | Uint16 | Uint32 | Uint64.

#[export] Instance FheType_eq_dec : EqDecision FheType.
Proof. solve_decision. Defined.

(** What a handle stands for: the declared width and the cleartext that
    only the decryption oracle can recover. *)
Record Ciphertext := mkCiphertext { ct_type : FheType; ct_plain : Z }.

(** Modelled from the spec: SubmittedScore, the externally produced
    ciphertext of a declared width (the FHE library and its input verifier
    are an external dependency). *)
Record ExternalCiphertext := mkExternal { ext_type : FheType; ext_plain : Z }.

(** Modelled from the spec: the correctness proof that accompanies a
    submitted ciphertext, reduced to the verdict of the external input
    verifier for this engine and this caller. *)
Inductive InputProof := ProofVerifies | ProofRejected.

(** Operations the coprocessor is asked to perform, in request order. *)
Inductive FheEvent :=
| VerifyInput (result : handle)
| TrivialEncrypt (pt : Z) (t : FheType) (result : handle)
| FheMax (lhs rhs result : handle)
| FheMin (lhs rhs result : handle)
| FheCast (ct : handle) (t : FheType) (result : handle)
| FheAdd (lhs rhs result : handle)
| FheMul (lhs rhs result : handle)
| FheDiv (lhs : handle) (scalar : Z) (result : handle)
| Decryption (ct : handle).

Definition is_decryption (e : FheEvent) : bool :=
  match e with Decryption _ => true | _ => false end.

(** ** Contract storage and chain state *)

Record Stats := mkStats { sum : handle; count : Z }.

#[export] Instance Stats_inhabited : Inhabited Stats := populate (mkStats 0%N 0).

Record State := mkState {
  _statsBySubject : gmap address Stats;
  ciphertexts : gmap handle Ciphertext;
  acl : gset (handle * address);
  counter : positive;
  events : list FheEvent
}.

Inductive Error := InvalidInputProof | TypeMismatch | DivisionByZero | OutOfGas.

#[export] Instance Error_eq_dec : EqDecision Error.
Proof. solve_decision. Defined.

(** ** The execution monad *)

Inductive Outcome (A : Type) :=
| Ok (a : A) (s : State) (g : nat)
| Abort (e : Error) (s : State).
Arguments Ok {A} a s g.
Arguments Abort {A} e s.

Definition M (A : Type) : Type := State -> nat -> Outcome A.

Definition ret {A} (a : A) : M A := fun s g => Ok a s g.

Definition bind {A B} (m : M A) (k : A -> M B) : M B :=
  fun s g =>
    match m s g with
    | Ok a s' g' => k a s' g'
    | Abort e s' => Abort e s'
    end.

Definition throw {A} (e : Error) : M A := fun s _ => Abort e s.

Definition gets {A} (f : State -> A) : M A := fun s g => Ok (f s) s g.

Definition modify (f : State -> State) : M unit := fun s g => Ok tt (f s) g.

(** One unit of the step budget is spent by every coprocessor request, ACL
    update and storage write. *)
Definition tick : M unit :=
  fun s g =>
    match g with
    | O => Abort OutOfGas s
    | S g' => Ok tt s g'
    end.

Declare Scope contract_scope.
Delimit Scope contract_scope with contract.
Notation "x <~ m ; k" := (bind m (fun x => k))
  (at level 20, m at level 100, k at level 200, only parsing) : contract_scope.
Notation "m ;; k" := (bind m (fun _ => k))
  (at level 100, k at level 200, only parsing, right associativity) : contract_scope.
Local Open Scope contract_scope.

(** ** Transactions *)

Inductive Receipt (A : Type) :=
| Success (a : A)
| Reverted (e : Error).
Arguments Success {A} a.
Arguments Reverted {A} e.

(** An external call either commits the state it reached or, when it
    aborts, leaves the chain as it was before the call. *)
Definition transact {A} (m : M A) (s : State) (g : nat) : Receipt A * State :=
  match m s g with
  | Ok a s' _ => (Success a, s')
  | Abort e _ => (Reverted e, s)
  end.

(** ** State updates *)

Definition set_stats (f : gmap address Stats -> gmap address Stats) (s : State) : State :=
  mkState (f (_statsBySubject s)) (ciphertexts s) (acl s) (counter s) (events s).

Definition set_acl (f : gset (handle * address) -> gset (handle * address)) (s : State) : State :=
  mkState (_statsBySubject s) (ciphertexts s) (f (acl s)) (counter s) (events s).

(** Allocation of the next handle: the ciphertext (when the coprocessor can
    compute it) is filed under the handle and the request is logged. *)
Definition allocate (c : option Ciphertext) (ev : handle -> FheEvent) (s : State)
  : handle * State :=
  let h := Npos (counter s) in
  (h, mkState (_statsBySubject s)
        (match c with Some ct => <[h := ct]> (ciphertexts s) | None => ciphertexts s end)
        (acl s) (Pos.succ (counter s)) (events s ++ [ev h])).

Definition request (c : State -> option Ciphertext) (ev : handle -> FheEvent) : M handle :=
  tick ;; fun s g => let '(h, s') := allocate (c s) ev s in Ok h s' g.

Definition cleartext (s : State) (h : handle) : option Z :=
  ct_plain <$> ciphertexts s !! h.

(** ** The FHE library

    Modelled from the spec: the arithmetic primitives of section 6 (add,
    multiply, divide-by-clear-scalar, min, max, width-cast, encrypt-constant,
    verified-import) and the ACL operations of section 4.2.  The library
    (@fhevm/solidity) is not part of the repository.  Encrypted integers of
    width w behave as unsigned w-bit integers; every operation yields a new
    handle; an uninitialised operand stands for an encrypted zero. *)
Module FHE.

(** Modelled from the spec: a handle that was never written is the zero
    handle ("an untouched subject has ... an implicit encrypted-zero sum"). *)
Definition isInitialized (h : handle) : bool := negb (h =? 0)%N.

(** Modelled from the spec: encrypt-constant. *)
Definition trivialEncrypt (v : Z) (t : FheType) : M handle :=
  request (fun _ => Some (mkCiphertext t v)) (TrivialEncrypt v t).

(** Modelled from the spec: encrypt-constant at 8 bits. *)
Definition asEuint8 (v : Z) : M handle := trivialEncrypt v Uint8.

(** Modelled from the spec: encrypt-constant at 32 bits (the overload
    [asEuint32(uint32)]). *)
Definition asEuint32 (v : Z) : M handle := trivialEncrypt v Uint32.

(** Modelled from the spec: an operand that was never written is replaced
    by a freshly encrypted zero ("treated as freshly encrypted zero"). *)
Definition initialised (t : FheType) (h : handle) : M handle :=
  if isInitialized h then ret h else trivialEncrypt 0 t.

(** Modelled from the spec: a binary coprocessor operation; the result is
    a new handle, and its ciphertext exists when both operands' do. *)
Definition binary (f : Z -> Z -> Z) (t : FheType)
    (ev : handle -> handle -> handle -> FheEvent) (a b : handle) : M handle :=
  request
    (fun s =>
       ca ← ciphertexts s !! a;
       cb ← ciphertexts s !! b;
       Some (mkCiphertext t (f (ct_plain ca) (ct_plain cb))))
    (ev a b).

(** Modelled from the spec: max on 8-bit handles. *)
Definition max (a b : handle) : M handle :=
  a' <~ initialised Uint8 a;
  b' <~ initialised Uint8 b;
  binary Z.max Uint8 FheMax a' b'.

(** Modelled from the spec: min on 8-bit handles. *)
Definition min (a b : handle) : M handle :=
  a' <~ initialised Uint8 a;
  b' <~ initialised Uint8 b;
  binary Z.min Uint8 FheMin a' b'.

(** Modelled from the spec: width-cast of an 8-bit handle to 32 bits
    (the overload [asEuint32(euint8)]). *)
Definition asEuint32_euint8 (a : handle) : M handle :=
  request
    (fun s => ca ← ciphertexts s !! a; Some (mkCiphertext Uint32 (ct_plain ca)))
    (FheCast a Uint32).

(** Modelled from the spec: add on 32-bit handles, modulo 2^32. *)
Definition add (a b : handle) : M handle :=
  a' <~ initialised Uint32 a;
  b' <~ initialised Uint32 b;
  binary (fun x y => wrap32 (x + y)) Uint32 FheAdd a' b'.

(** Modelled from the spec: multiply on 32-bit handles, modulo 2^32. *)
Definition mul (a b : handle) : M handle :=
  a' <~ initialised Uint32 a;
  b' <~ initialised Uint32 b;
  binary (fun x y => wrap32 (x * y)) Uint32 FheMul a' b'.

(** Modelled from the spec: divide-by-clear-scalar, rounding down. *)
Definition div (a : handle) (b : Z) : M handle :=
  a' <~ initialised Uint32 a;
  if b =? 0 then throw DivisionByZero
  else request
         (fun s => ca ← ciphertexts s !! a'; Some (mkCiphertext Uint32 (ct_plain ca / b)))
         (FheDiv a' b).

(** Modelled from the spec: verified-import, failing with
    [InvalidInputProof] if the proof does not verify, or [TypeMismatch] if
    the width is unsupported. *)
Definition fromExternal (inputHandle : ExternalCiphertext) (inputProof : InputProof)
  : M handle :=
  match inputProof with
  | ProofRejected => throw InvalidInputProof
  | ProofVerifies =>
      if decide (ext_type inputHandle = Uint8)
      then request (fun _ => Some (mkCiphertext Uint8 (ext_plain inputHandle))) VerifyInput
      else throw TypeMismatch
  end.

(** Modelled from the spec: the ACL manager's [allow]; the relation only
    grows. *)
Definition allow (h : handle) (account : address) : M unit :=
  tick ;; modify (set_acl (fun r => {[ (h, account) ]} ∪ r)).

(** Modelled from the spec: [allowThis], "the same operation applied to the
    engine's own identity". *)
Definition allowThis (this : address) (h : handle) : M unit := allow h this.

End FHE.

(** ** Storage access *)

Definition sload (subject : address) : M Stats :=
  gets (fun s => _statsBySubject s !!! subject).

Definition sstore_sum (subject : address) (h : handle) : M unit :=
  tick ;;
  modify (set_stats (fun m => <[subject := mkStats h (count (m !!! subject))]> m)).

Definition sstore_count (subject : address) (c : Z) : M unit :=
  tick ;;
  modify (set_stats (fun m => <[subject := mkStats (sum (m !!! subject)) c]> m)).

(** ** The contract *)

Module RatingNet.

Definition SCALE : Z := 100.

Definition submitEncryptedScore (this subject : address)
    (cipherScore : ExternalCiphertext) (inputProof : InputProof) : M unit :=
  score <~ FHE.fromExternal cipherScore inputProof;
  one <~ FHE.asEuint8 1;
  five <~ FHE.asEuint8 5;
  hi <~ FHE.max score one;
  clamped <~ FHE.min hi five;
  clamped32 <~ FHE.asEuint32_euint8 clamped;
  st <~ sload subject;
  newSum <~ FHE.add (sum st) clamped32;
  sstore_sum subject newSum ;;
  st1 <~ sload subject;
  sstore_count subject (wrap32 (count st1 + 1)) ;;
  st2 <~ sload subject;
  FHE.allowThis this (sum st2).

Definition getEncryptedAverage (this sender subject : address) : M handle :=
  s <~ sload subject;
  avg <~ (if count s =? 0 then FHE.asEuint32 0
          else
            scale <~ FHE.asEuint32 SCALE;
            scaledSum <~ FHE.mul (sum s) scale;
            FHE.div scaledSum (count s));
  FHE.allow avg sender ;;
  FHE.allowThis this avg ;;
  ret avg.

Definition getEncryptedSum (s : State) (subject : address) : handle :=
  sum (_statsBySubject s !!! subject).

Definition getCount (s : State) (subject : address) : Z :=
  count (_statsBySubject s !!! subject).

End RatingNet.
Import RatingNet.

(** The chain right after deployment. *)
Definition deployed : State := mkState ∅ ∅ ∅ 1%positive [].

(** ** Call histories *)

Inductive Call :=
| Submit (sender subject : address) (cipherScore : ExternalCiphertext)
    (inputProof : InputProof) (gas : nat)
| Average (sender subject : address) (gas : nat).

Definition execute (this : address) (s : State) (c : Call) : State :=
  match c with
  | Submit _ subject cipherScore inputProof gas =>
      (transact (submitEncryptedScore this subject cipherScore inputProof) s gas).2
  | Average sender subject gas =>
      (transact (getEncryptedAverage this sender subject) s gas).2
  end.

Definition run (this : address) (calls : list Call) (s : State) : State :=
  fold_left (execute this) calls s.

(** ** Cleartext views used in the statements *)

Definition clamp (score : Z) : Z := Z.min (Z.max score 1) 5.

(** The value the engine's arithmetic attributes to a stored sum: the
    uninitialised handle stands for zero. *)
Definition sumPlain (s : State) (subject : address) : option Z :=
  if FHE.isInitialized (getEncryptedSum s subject)
  then cleartext s (getEncryptedSum s subject)
  else Some 0.

(** The chain-visible part of the state: everything but the cleartexts
    behind the handles. *)
Definition onchain (s : State)
  : gmap address Stats * gset (handle * address) * positive * list FheEvent :=
  (_statsBySubject s, acl s, counter s, events s).

(** ** Expected effects, in terms of the handle counter *)

(** The [k]-th handle allocated from counter value [c]. *)
Definition fresh (c : positive) (k : nat) : handle := N.pos (Nat.iter k Pos.succ c).

Definition submit_handles (old : handle) : nat :=
  if FHE.isInitialized old then 7%nat else 8%nat.

Definition submit_cost (old : handle) : nat := (submit_handles old + 3)%nat.

Definition submit_requests (c : positive) (old : handle) : list FheEvent :=
  [ VerifyInput (fresh c 0);
    TrivialEncrypt 1 Uint8 (fresh c 1);
    TrivialEncrypt 5 Uint8 (fresh c 2);
    FheMax (fresh c 0) (fresh c 1) (fresh c 3);
    FheMin (fresh c 3) (fresh c 2) (fresh c 4);
    FheCast (fresh c 4) Uint32 (fresh c 5) ] ++
  (if FHE.isInitialized old
   then [ FheAdd old (fresh c 5) (fresh c 6) ]
   else [ TrivialEncrypt 0 Uint32 (fresh c 6);
          FheAdd (fresh c 6) (fresh c 5) (fresh c 7) ]).

Definition average_handles (old : handle) (n : Z) : nat :=
  if n =? 0 then 1%nat
  else if FHE.isInitialized old then 3%nat else 4%nat.

Definition average_cost (old : handle) (n : Z) : nat := (average_handles old n + 2)%nat.

Definition average_requests (c : positive) (old : handle) (n : Z) : list FheEvent :=
  if n =? 0 then [ TrivialEncrypt 0 Uint32 (fresh c 0) ]
  else
    TrivialEncrypt SCALE Uint32 (fresh c 0) ::
    (if FHE.isInitialized old
     then [ FheMul old (fresh c 0) (fresh c 1);
            FheDiv (fresh c 1) n (fresh c 2) ]
     else [ TrivialEncrypt 0 Uint32 (fresh c 1);
            FheMul (fresh c 1) (fresh c 0) (fresh c 2);
            FheDiv (fresh c 2) n (fresh c 3) ]).

(** The average the contract computes from a cleartext sum and a count. *)
Definition average_of (total n : Z) : Z :=
  if n =? 0 then 0 else wrap32 (total * SCALE) / n.

(** Effect of a committed [submitEncryptedScore] of cleartext [v]. *)
Record submitted (this subject : address) (v : Z) (s s' : State) : Prop := {
  sub_counter :
    counter s' = Nat.iter (submit_handles (getEncryptedSum s subject)) Pos.succ (counter s);
  sub_stats :
    _statsBySubject s' =
      <[subject := mkStats (fresh (counter s) (submit_handles (getEncryptedSum s subject) - 1))
                     (wrap32 (getCount s subject + 1))]> (_statsBySubject s);
  sub_acl :
    acl s' =
      {[ (fresh (counter s) (submit_handles (getEncryptedSum s subject) - 1), this) ]} ∪ acl s;
  sub_events :
    events s' = events s ++ submit_requests (counter s) (getEncryptedSum s subject);
  sub_sum : forall v0, sumPlain s subject = Some v0 ->
    ciphertexts s' !! getEncryptedSum s' subject =
      Some (mkCiphertext Uint32 (wrap32 (v0 + clamp v)));
  sub_frame : forall h, (h < N.pos (counter s) \/ N.pos (counter s') <= h)%N ->
    ciphertexts s' !! h = ciphertexts s !! h
}.

(** Effect of a committed [getEncryptedAverage] that returned [avg]. *)
Record averaged (this sender subject : address) (s : State) (avg : handle) (s' : State)
  : Prop := {
  avg_handle :
    avg = fresh (counter s)
            (average_handles (getEncryptedSum s subject) (getCount s subject) - 1);
  avg_counter :
    counter s' =
      Nat.iter (average_handles (getEncryptedSum s subject) (getCount s subject))
        Pos.succ (counter s);
  avg_stats : _statsBySubject s' = _statsBySubject s;
  avg_acl : acl s' = {[ (avg, this) ]} ∪ ({[ (avg, sender) ]} ∪ acl s);
  avg_events :
    events s' =
      events s ++
      average_requests (counter s) (getEncryptedSum s subject) (getCount s subject);
  avg_value : forall v0, sumPlain s subject = Some v0 ->
    ciphertexts s' !! avg =
      Some (mkCiphertext Uint32 (average_of v0 (getCount s subject)));
  avg_frame : forall h, (h < N.pos (counter s) \/ N.pos (counter s') <= h)%N ->
    ciphertexts s' !! h = ciphertexts s !! h
}.

(** ** The storage invariant *)

Record wf (s : State) : Prop := {
  wf_store : forall h, (N.pos (counter s) <= h)%N -> ciphertexts s !! h = None;
  wf_acl : forall h a, (h, a) ∈ acl s -> (h < N.pos (counter s))%N;
  wf_handle : forall subject, (getEncryptedSum s subject < N.pos (counter s))%N;
  wf_sum : forall subject, exists v, sumPlain s subject = Some v /\ 0 <= v < 2 ^ 32;
  wf_count : forall subject, 0 <= getCount s subject < 2 ^ 32
}.

(** ** Histories seen from one subject *)

Definition committed {A} (r : Receipt A) : bool :=
  match r with Success _ => true | Reverted _ => false end.

(** Raw scores of the submissions for [subject] that were committed, in
    call order. *)
Fixpoint accepted (this subject : address) (calls : list Call) (s : State) : list Z :=
  match calls with
  | [] => []
  | c :: rest =>
      match c with
      | Submit _ target cipherScore inputProof gas =>
          if bool_decide (target = subject) &&
             committed (transact (submitEncryptedScore this target cipherScore inputProof) s gas).1
          then [ext_plain cipherScore]
          else []
      | Average _ _ _ => []
      end ++ accepted this subject rest (execute this s c)
  end.

Definition total (l : list Z) : Z := foldr Z.add 0 l.

(** No call of the history is a submission for [subject]. *)
Definition untouched (subject : address) (calls : list Call) : Prop :=
  Forall (fun c => match c with
                   | Submit _ target _ _ _ => target <> subject
                   | Average _ _ _ => True
                   end) calls.

(** Budgets that always suffice for one call. *)
Definition SUBMIT_GAS : nat := 11.
Definition AVERAGE_GAS : nat := 6.

(** ** The web client's submit action (src/frontend/src/ui/App.tsx)

    One render of [App]: the values its hooks close over.  Objects are
    present or [undefined]; the contract address is a string or [undefined];
    the score is an integer-valued number.  [isAddress] stands for
    [ethers.isAddress], which is not part of the repository. *)
Module App.

Record ContractMeta := mkContractMeta { address : option string }.

Record Render := mkRender {
  instance : option unit;
  signer : option string;
  provider : option unit;
  contractMeta : ContractMeta;
  score : Z;
  target : string
}.

(** JavaScript truthiness of the operands of [&&] in [canSubmit]. *)
Definition truthy_object {A} (o : option A) : bool :=
  match o with Some _ => true | None => false end.

Definition truthy_string (o : option string) : bool :=
  match o with Some a => negb (String.eqb a EmptyString) | None => false end.

Definition canSubmit (isAddress : string -> bool) (r : Render) : bool :=
  truthy_object (instance r) &&
  truthy_object (signer r) &&
  truthy_object (provider r) &&
  truthy_string (address (contractMeta r)) &&
  (1 <=? score r) &&
  (score r <=? 5) &&
  isAddress (target r).

(** What the outside world answers while [submit] runs: the encrypted input
    or the exception thrown, and whether sending and mining succeed. *)
Record World := mkWorld {
  encrypted : string * string + string;
  sent : option string;
  mined : option string
}.

Inductive Effect :=
| SetStatus (message : string)
| Encrypt8 (contract user : string) (value : Z)
| SendSubmitEncryptedScore (contract subject handle inputProof : string)
| WaitReceipt.

Definition failed (e : string) : Effect := SetStatus ("Failed to submit rating: "%string ++ e).

Definition submit (isAddress : string -> bool) (r : Render) (w : World) : list Effect :=
  if negb (canSubmit isAddress r) || negb (truthy_object (instance r)) ||
     negb (truthy_object (signer r)) || negb (truthy_string (address (contractMeta r)))
  then []
  else
    match signer r, address (contractMeta r) with
    | Some user, Some contract =>
        SetStatus "Encrypting your rating..."%string ::
        Encrypt8 contract user (score r) ::
        match encrypted w with
        | inr e => [failed e]
        | inl (handle, inputProof) =>
            SetStatus "Submitting encrypted rating to blockchain..."%string ::
            SendSubmitEncryptedScore contract (target r) handle inputProof ::
            match sent w with
            | Some e => [failed e]
            | None =>
                WaitReceipt ::
                match mined w with
                | Some e => [failed e]
                | None => [SetStatus "Rating submitted successfully!"%string]
                end
            end
        end
    | _, _ => []
    end.

Definition sends (e : Effect) : bool :=
  match e with
  | Encrypt8 _ _ _ | SendSubmitEncryptedScore _ _ _ _ => true
  | _ => false
  end.

End App.

(** The subject a call is about. *)
Definition targets (c : Call) : N :=
  match c with Submit _ subject _ _ _ | Average _ subject _ => subject end.

(** ** Numbers as decimal strings

    [String(n)] and [parseInt(s)] of JavaScript, on the values the scripts
    apply them to: non-negative integers (below 10^21, where [String] still
    prints all digits) and strings of decimal digits.  Any other string is
    outside this model and is answered with [None], standing for [NaN]. *)
Definition String_of_number (n : N) : string := NilEmpty.string_of_uint (N.to_uint n).

Definition parseInt (s : string) : option N :=
  if String.eqb s EmptyString then None
  else N.of_uint <$> NilEmpty.uint_of_string s.

(** ** The ABI generator (src/frontend/scripts/genabi.mjs) *)
Module GenAbi.

(** The fields the script reads from a parsed [RatingNet.json]. *)
Module Deployment.
Record t := mk { address : option string; abi : option string; chainId : option N }.
End Deployment.

(** One value of the [deployments] map, as written to [RatingNetAddresses]. *)
Module Entry.
Record t := mk { address : option string; chainId : option N; chainName : string }.
End Entry.

(** The [firstDeployment] object. *)
Module First.
Record t := mk { abi : option string; chainId : string }.
End First.

(** What [existsSync], [readFileSync] and [JSON.parse] give for the
    [RatingNet.json] of one network directory: no file, a file whose reading
    or parsing throws, or the parsed deployment. *)
Inductive File := Missing | Unreadable | Readable (d : Deployment.t).

(** One [Dirent] of the deployments directory. *)
Record Dirent := mkDirent { name : string; isDirectory : bool }.

Definition networkPriority : list string :=
  ["sepolia"; "hardhat"; "localhost"; "anvil"]%string.

Definition chainIdToName (k : option N) : option string :=
  match k with
  | Some 11155111%N => Some "sepolia"%string
  | Some 31337%N => Some "localhost"%string
  | _ => None
  end.

(** [a || b] on an optional string: the empty string is falsy. *)
Definition or_else (a : option string) (b : string) : string :=
  match a with
  | Some x => if String.eqb x EmptyString then b else x
  | None => b
  end.

Definition Scan : Type := gmap string Entry.t * option First.t.

Definition remember (st : Scan) (abi : option string) (chainIdStr : string)
  : option First.t :=
  match st.2 with
  | None => Some (First.mk abi chainIdStr)
  | Some f => Some f
  end.

Definition entry_of (d : Deployment.t) (chainIdStr net : string) : Entry.t :=
  Entry.mk (Deployment.address d) (parseInt chainIdStr)
    (or_else (chainIdToName (parseInt chainIdStr)) net).

(** [String(chainId ?? fallback)]. *)
Definition chainIdStr_of (fallback : N) (d : Deployment.t) : string :=
  String_of_number (default fallback (Deployment.chainId d)).

(** The fallback chain id of a priority network. *)
Definition fallback_of (net : string) : N :=
  if String.eqb net "sepolia" then 11155111%N else 31337%N.

(** Body of the loop over [networkPriority]. *)
Definition priorityStep (read : string -> File) (st : Scan) (net : string) : Scan :=
  match read net with
  | Readable d =>
      let chainIdStr := chainIdStr_of (fallback_of net) d in
      (<[chainIdStr := entry_of d chainIdStr net]> st.1,
       remember st (Deployment.abi d) chainIdStr)
  | _ => st
  end.

(** Body of the loop over the other directories. *)
Definition otherStep (read : string -> File) (st : Scan) (e : Dirent) : Scan :=
  if isDirectory e && negb (bool_decide (name e ∈ networkPriority)) then
    match read (name e) with
    | Readable d =>
        let chainIdStr := chainIdStr_of 31337%N d in
        (match st.1 !! chainIdStr with
         | None => <[chainIdStr := entry_of d chainIdStr (name e)]> st.1
         | Some _ => st.1
         end,
         remember st (Deployment.abi d) chainIdStr)
    | _ => st
    end
  else st.

(** [entries] is the listing of the deployments directory, or [None] when
    [readdir] throws. *)
Definition scanDeployments (read : string -> File) (entries : option (list Dirent)) : Scan :=
  let st := foldl (priorityStep read) (∅, None) networkPriority in
  match entries with
  | Some es => foldl (otherStep read) st es
  | None => st
  end.

(** What the script writes: the ABI of [RatingNetABI.ts] and the object of
    [RatingNetAddresses.ts]; nothing when no deployment was found. *)
Record Output := mkOutput {
  RatingNetABI : option string;
  RatingNetAddresses : gmap string Entry.t
}.

Definition main (read : string -> File) (entries : option (list Dirent)) : option Output :=
  let '(deployments, firstDeployment) := scanDeployments read entries in
  match firstDeployment with
  | None => None
  | Some f => Some (mkOutput (First.abi f) deployments)
  end.

(** A directory entry the second loop looks into. *)
Definition scanned (e : Dirent) : Prop :=
  isDirectory e = true /\ (name e ∉ networkPriority).

(** Where an entry of the map comes from: a readable deployment of a
    priority network or of another directory, filed under its chain id. *)
Definition sourced (read : string -> File) (k : string) (x : Entry.t) : Prop :=
  exists net d,
    read net = Readable d /\
    x = entry_of d k net /\
    (((net ∈ networkPriority) /\ k = chainIdStr_of (fallback_of net) d) \/
     ((net ∉ networkPriority) /\ k = chainIdStr_of 31337 d)).

End GenAbi.

(** ** The rest of the web client (src/frontend/src/ui/App.tsx) *)
Module AppRead.

(** [ethers.ZeroAddress]. *)
Definition ZeroAddress : string := "0x0000000000000000000000000000000000000000".

(** [chainId] is [undefined] or a non-negative integer; 0 is falsy. *)
Definition getContractMeta (RatingNetAddresses : gmap string GenAbi.Entry.t)
    (chainId : option N) : App.ContractMeta :=
  let entry :=
    match chainId with
    | Some n => if (n =? 0)%N then None else RatingNetAddresses !! String_of_number n
    | None => None
    end in
  App.mkContractMeta
    (match entry with
     | Some e =>
         if App.truthy_string (GenAbi.Entry.address e) &&
            negb (bool_decide (GenAbi.Entry.address e = Some ZeroAddress))
         then GenAbi.Entry.address e
         else None
     | None => None
     end).

Definition canGetAvg (isAddress : string -> bool) (r : App.Render) : bool :=
  App.truthy_object (App.instance r) &&
  App.truthy_object (App.signer r) &&
  App.truthy_object (App.provider r) &&
  App.truthy_string (App.address (App.contractMeta r)) &&
  isAddress (App.target r).

(** What the outside world answers while [getAverage] runs.  An error is
    given by the text [String(e)] of the exception. *)
Record World := mkWorld {
  requestAccounts : option string;
  getAddress : option string;
  sent : option string;
  mined : option string;
  staticCall : string + string;
  loadOrSign : option string + string;
  userDecrypt : option Z + string
}.

Inductive Effect :=
| SetStatus (message : string)
| RequestAccounts
| GetAddress
| SendGetEncryptedAverage (contract subject : string)
| WaitReceipt
| StaticCallGetEncryptedAverage (contract subject : string)
| SetAvgHandle (handle : string)
| LoadOrSign (contracts : list string) (user : string)
| UserDecrypt (handle contract signature : string)
| SetAvgClear (value : option Z).

Definition failed (e : string) : list Effect :=
  [SetStatus ("Failed to retrieve average: " ++ e)%string].

(** The inner [catch] wraps the error in [new Error(...)], whose text starts
    with "Error: ". *)
Definition walletFailed (e : string) : list Effect :=
  failed ("Error: Wallet connection required: " ++ e)%string.

Definition getAverage (isAddress : string -> bool) (r : App.Render) (w : World)
  : list Effect :=
  if negb (canGetAvg isAddress r) || negb (App.truthy_object (App.instance r)) ||
     negb (App.truthy_object (App.signer r)) ||
     negb (App.truthy_string (App.address (App.contractMeta r)))
  then []
  else
    match App.signer r, App.address (App.contractMeta r) with
    | Some user, Some contract =>
        SetStatus "Preparing to retrieve average rating..." ::
        (match App.provider r with
         | Some _ => [SetStatus "Requesting wallet access..."; RequestAccounts]
         | None => []
         end) ++
        match (match App.provider r with Some _ => requestAccounts w | None => None end) with
        | Some e => walletFailed e
        | None =>
        GetAddress ::
        match getAddress w with
        | Some e => walletFailed e
        | None =>
        SetStatus "Granting decryption permission on blockchain..." ::
        SendGetEncryptedAverage contract (App.target r) ::
        match sent w with
        | Some e => failed e
        | None =>
        WaitReceipt ::
        match mined w with
        | Some e => failed e
        | None =>
        SetStatus "Retrieving encrypted average..." ::
        StaticCallGetEncryptedAverage contract (App.target r) ::
        match staticCall w with
        | inr e => failed e
        | inl handle =>
        SetAvgHandle handle ::
        SetStatus "Requesting signature for decryption..." ::
        LoadOrSign [contract] user ::
        match loadOrSign w with
        | inr e => failed e
        | inl None => [SetStatus "Signature creation failed. Please try again."]
        | inl (Some sig) =>
        SetStatus "Decrypting average rating..." ::
        UserDecrypt handle contract sig ::
        match userDecrypt w with
        | inr e => failed e
        | inl value =>
            [SetAvgClear value; SetStatus "Average rating decrypted successfully!"]
        end end end end end end end
    | _, _ => []
    end.

End AppRead.

(** ** Hoare-style reasoning on the monad *)

Definition triple {A} (ab : Error -> Prop) (m : M A) (Q : A -> State -> nat -> Prop)
    (s : State) (g : nat) : Prop :=
  match m s g with
  | Ok a s' g' => Q a s' g'
  | Abort e _ => ab e
  end.

Lemma triple_bind {A B} ab (m : M A) (k : A -> M B) Q s g :
  triple ab m (fun a s' g' => triple ab (k a) Q s' g') s g ->
  triple ab (bind m k) Q s g.
Proof. unfold triple, bind. destruct (m s g); auto. Qed.

Lemma triple_ret {A} ab (a : A) (Q : A -> State -> nat -> Prop) s g :
  Q a s g -> triple ab (ret a) Q s g.
Proof. auto. Qed.

Lemma triple_gets {A} ab (f : State -> A) (Q : A -> State -> nat -> Prop) s g :
  Q (f s) s g -> triple ab (gets f) Q s g.
Proof. auto. Qed.

Lemma triple_modify ab f (Q : unit -> State -> nat -> Prop) s g :
  Q tt (f s) g -> triple ab (modify f) Q s g.
Proof. auto. Qed.

Lemma triple_throw {A} (ab : Error -> Prop) e (Q : A -> State -> nat -> Prop) s g :
  ab e -> triple ab (throw e) Q s g.
Proof. auto. Qed.

Lemma triple_tick (ab : Error -> Prop) (Q : unit -> State -> nat -> Prop) s g :
  match g with O => ab OutOfGas | S g' => Q tt s g' end -> triple ab tick Q s g.
Proof. destruct g; auto. Qed.

Lemma triple_request (ab : Error -> Prop) c ev (Q : handle -> State -> nat -> Prop) s g :
  match g with
  | O => ab OutOfGas
  | S g' => Q (N.pos (counter s)) (allocate (c s) ev s).2 g'
  end ->
  triple ab (request c ev) Q s g.
Proof. destruct g; auto. Qed.

Ltac gas_case :=
  lazymatch goal with
  | |- match ?g with O => _ | S _ => _ end =>
      first [ is_var g; destruct g; [split; [reflexivity | cbn; lia] |]
            | cbv iota beta ]
  end.

Ltac norm :=
  unfold set_stats, set_acl;
  cbn [allocate fst snd _statsBySubject ciphertexts acl counter events
       FHE.isInitialized N.eqb negb sum count ct_plain ct_type];
  repeat first
    [ rewrite lookup_insert_eq
    | rewrite lookup_insert_ne by lia
    | rewrite lookup_total_insert_eq
    | match goal with H : ciphertexts _ !! _ = _ |- _ => rewrite H end
    | match goal with H : FHE.isInitialized _ = _ |- _ => rewrite H end
    | match goal with H : (_ =? _) = _ |- _ => rewrite H end ];
  cbn [mbind option_bind ct_plain ct_type sum count].

Ltac mstep :=
  lazymatch goal with
  | |- triple _ (bind _ _) _ _ _ => apply triple_bind
  | |- triple _ (ret _) _ _ _ => apply triple_ret; norm
  | |- triple _ (gets _) _ _ _ => apply triple_gets; norm
  | |- triple _ (modify _) _ _ _ => apply triple_modify; norm
  | |- triple _ tick _ _ _ => apply triple_tick; gas_case
  | |- triple _ (request _ _) _ _ _ => apply triple_request; gas_case; norm
  | |- triple _ (if true then _ else _) _ _ _ => cbv iota
  | |- triple _ (if false then _ else _) _ _ _ => cbv iota
  end.

Ltac unfold_lib :=
  unfold FHE.fromExternal, FHE.asEuint8, FHE.asEuint32, FHE.max, FHE.min,
    FHE.asEuint32_euint8, FHE.add, FHE.mul, FHE.div, FHE.allowThis, FHE.allow,
    FHE.binary, FHE.initialised, FHE.trivialEncrypt, sstore_sum, sstore_count, sload.

Lemma sumPlain_cases s subject v0 :
  sumPlain s subject = Some v0 ->
  (FHE.isInitialized (getEncryptedSum s subject) = false /\ v0 = 0) \/
  (FHE.isInitialized (getEncryptedSum s subject) = true /\
   exists t, ciphertexts s !! getEncryptedSum s subject = Some (mkCiphertext t v0)).
Proof.
  unfold sumPlain, cleartext.
  destruct (FHE.isInitialized _); [right | left; split; congruence].
  split; [done|].
  destruct (ciphertexts s !! _) as [[t v]|]; simplify_eq/=. eauto.
Qed.

(** A call of [submitEncryptedScore] with a verified 8-bit input either
    runs out of budget, exactly when the budget is below [submit_cost], or
    completes with the effect [submitted]. *)
Lemma submit_spec this subject cs s g :
  ext_type cs = Uint8 ->
  (getEncryptedSum s subject < N.pos (counter s))%N ->
  triple
    (fun e => e = OutOfGas /\ (g < submit_cost (getEncryptedSum s subject))%nat)
    (submitEncryptedScore this subject cs ProofVerifies)
    (fun _ s' g' =>
       submitted this subject (ext_plain cs) s s' /\
       g = (g' + submit_cost (getEncryptedSum s subject))%nat)
    s g.
Proof.
  intros Hty Hold.
  unfold submitEncryptedScore, submit_cost, submit_handles. unfold_lib.
  destruct (decide _) as [_|]; [|done].
  unfold getEncryptedSum in *.
  destruct (FHE.isInitialized (sum (_statsBySubject s !!! subject))) eqn:Hinit;
    destruct (ciphertexts s !! sum (_statsBySubject s !!! subject)) as [c0|] eqn:Hc0.
  all: repeat mstep.
  all: (split; [|cbn; lia]).
  all: split; unfold getEncryptedSum, getCount, submit_handles, submit_requests, fresh;
    norm; rewrite ?Hinit; cbn [Nat.iter nat_rect Nat.sub app]; try reflexivity.
  all: try (rewrite insert_insert_eq; reflexivity).
  all: try (rewrite <- !app_assoc; reflexivity).
  all: try (intros h Hh; repeat rewrite lookup_insert_ne by lia; reflexivity).
  all: intros v0 Hv0; apply sumPlain_cases in Hv0 as [[Hi ->]|[Hi [t Hc]]];
    unfold getEncryptedSum in *; try congruence.
  all: try (rewrite Hc in Hc0; simplify_eq/=; reflexivity).
  all: reflexivity.
Qed.

(** The same for [getEncryptedAverage]; no input can make it fail other
    than by exhausting the budget. *)
Lemma average_spec this sender subject s g :
  (getEncryptedSum s subject < N.pos (counter s))%N ->
  is_Some (sumPlain s subject) ->
  triple
    (fun e => e = OutOfGas /\
              (g < average_cost (getEncryptedSum s subject) (getCount s subject))%nat)
    (getEncryptedAverage this sender subject)
    (fun avg s' g' =>
       averaged this sender subject s avg s' /\
       g = (g' + average_cost (getEncryptedSum s subject) (getCount s subject))%nat)
    s g.
Proof.
  intros Hold [v1 Hv1].
  unfold getEncryptedAverage, average_cost, average_handles. unfold_lib.
  apply sumPlain_cases in Hv1 as Hcases.
  unfold getEncryptedSum, getCount in *.
  destruct (count (_statsBySubject s !!! subject) =? 0) eqn:Hcnt;
    destruct Hcases as [[Hinit ->]|[Hinit [t Hc0]]].
  all: repeat mstep.
  all: (split; [|cbn; lia]).
  all: split; unfold getEncryptedSum, getCount, average_handles, average_requests, fresh;
    norm; rewrite ?Hinit, ?Hcnt; cbn [Nat.iter nat_rect Nat.sub app]; try reflexivity.
  all: try (rewrite <- !app_assoc; reflexivity).
  all: try (intros h Hh; repeat rewrite lookup_insert_ne by lia; reflexivity).
  all: intros v0 Hv0; rewrite Hv1 in Hv0; simplify_eq; unfold average_of.
  all: rewrite ?Hcnt; try reflexivity.
Qed.

(** ** Handles and the invariant *)

Lemma fresh_add c k : fresh c k = (N.pos c + N.of_nat k)%N.
Proof.
  unfold fresh. induction k as [|k IH]; [cbn; lia|].
  change (Nat.iter (S k) Pos.succ c) with (Pos.succ (Nat.iter k Pos.succ c)).
  lia.
Qed.

Lemma submit_handles_range old : (7 <= submit_handles old <= 8)%nat.
Proof. unfold submit_handles. destruct (FHE.isInitialized old); lia. Qed.

Lemma average_handles_range old n : (1 <= average_handles old n <= 4)%nat.
Proof.
  unfold average_handles. destruct (n =? 0), (FHE.isInitialized old); lia.
Qed.

Lemma wrap32_range z : 0 <= wrap32 z < 2 ^ 32.
Proof. unfold wrap32. apply Z.mod_pos_bound. lia. Qed.

Lemma wrap32_small z : 0 <= z < 2 ^ 32 -> wrap32 z = z.
Proof. unfold wrap32. intros. apply Z.mod_small. lia. Qed.

Lemma clamp_range v : 1 <= clamp v <= 5.
Proof. unfold clamp. lia. Qed.

Lemma isInitialized_fresh c k : FHE.isInitialized (fresh c k) = true.
Proof. reflexivity. Qed.

Lemma sumPlain_frame s s' subject :
  getEncryptedSum s' subject = getEncryptedSum s subject ->
  ciphertexts s' !! getEncryptedSum s subject = ciphertexts s !! getEncryptedSum s subject ->
  sumPlain s' subject = sumPlain s subject.
Proof. unfold sumPlain, cleartext. intros -> ->. reflexivity. Qed.

Lemma deployed_stats subject : _statsBySubject deployed !!! subject = mkStats 0%N 0.
Proof. exact (lookup_total_empty (M:=gmap N) subject). Qed.

Lemma wf_deployed : wf deployed.
Proof.
  split; unfold getEncryptedSum, getCount, sumPlain; intros;
    rewrite ?deployed_stats; cbn.
  - apply lookup_empty.
  - set_solver.
  - lia.
  - exists 0. split; [done | lia].
  - lia.
Qed.

Lemma submitted_sum_handle this subject v s s' :
  submitted this subject v s s' ->
  getEncryptedSum s' subject =
    fresh (counter s) (submit_handles (getEncryptedSum s subject) - 1).
Proof.
  intros H. unfold getEncryptedSum at 1. rewrite (sub_stats _ _ _ _ _ H).
  rewrite lookup_total_insert_eq. reflexivity.
Qed.

Lemma submitted_count this subject v s s' :
  submitted this subject v s s' ->
  getCount s' subject = wrap32 (getCount s subject + 1).
Proof.
  intros H. unfold getCount at 1. rewrite (sub_stats _ _ _ _ _ H).
  rewrite lookup_total_insert_eq. reflexivity.
Qed.

Lemma submitted_other this subject v s s' other :
  submitted this subject v s s' -> other <> subject ->
  _statsBySubject s' !!! other = _statsBySubject s !!! other.
Proof.
  intros H Hne. rewrite (sub_stats _ _ _ _ _ H).
  rewrite lookup_total_insert_ne by congruence. reflexivity.
Qed.

Lemma submitted_counter this subject v s s' :
  submitted this subject v s s' ->
  N.pos (counter s') =
    (N.pos (counter s) + N.of_nat (submit_handles (getEncryptedSum s subject)))%N.
Proof. intros H. rewrite (sub_counter _ _ _ _ _ H). apply fresh_add. Qed.

Lemma wf_submitted this subject v s s' :
  wf s -> submitted this subject v s s' -> wf s'.
Proof.
  intros Hwf H.
  pose proof (submit_handles_range (getEncryptedSum s subject)) as Hk.
  pose proof (submitted_counter _ _ _ _ _ H) as Hc.
  pose proof (submitted_sum_handle _ _ _ _ _ H) as Hh. rewrite fresh_add in Hh.
  assert (Hother : forall other, other <> subject ->
            getEncryptedSum s' other = getEncryptedSum s other).
  { intros other Hne. unfold getEncryptedSum.
    by rewrite (submitted_other _ _ _ _ _ _ H Hne). }
  split.
  - intros h Hge. rewrite (sub_frame _ _ _ _ _ H) by lia.
    apply (wf_store _ Hwf). lia.
  - intros h a. rewrite (sub_acl _ _ _ _ _ H), fresh_add.
    rewrite elem_of_union, elem_of_singleton. intros [[= -> ->]|Hin]; [lia|].
    apply (wf_acl _ Hwf) in Hin. lia.
  - intros other. destruct (decide (other = subject)) as [->|Hne]; [lia|].
    rewrite (Hother _ Hne). pose proof (wf_handle _ Hwf other). lia.
  - intros other. destruct (decide (other = subject)) as [->|Hne].
    + destruct (wf_sum _ Hwf subject) as (v0 & Hv0 & _).
      exists (wrap32 (v0 + clamp v)). split; [|apply wrap32_range].
      unfold sumPlain, cleartext.
      rewrite (sub_sum _ _ _ _ _ H _ Hv0).
      rewrite (submitted_sum_handle _ _ _ _ _ H), isInitialized_fresh. reflexivity.
    + rewrite (sumPlain_frame s s' other (Hother _ Hne)); [apply (wf_sum _ Hwf)|].
      apply (sub_frame _ _ _ _ _ H). left. apply (wf_handle _ Hwf).
  - intros other. destruct (decide (other = subject)) as [->|Hne].
    + rewrite (submitted_count _ _ _ _ _ H). apply wrap32_range.
    + unfold getCount. rewrite (submitted_other _ _ _ _ _ _ H Hne).
      apply (wf_count _ Hwf).
Qed.

Lemma averaged_counter this sender subject s avg s' :
  averaged this sender subject s avg s' ->
  N.pos (counter s') =
    (N.pos (counter s) +
     N.of_nat (average_handles (getEncryptedSum s subject) (getCount s subject)))%N.
Proof. intros H. rewrite (avg_counter _ _ _ _ _ _ H). apply fresh_add. Qed.

Lemma averaged_sumPlain this sender subject s avg s' other :
  wf s -> averaged this sender subject s avg s' ->
  sumPlain s' other = sumPlain s other.
Proof.
  intros Hwf H. apply sumPlain_frame.
  - unfold getEncryptedSum. by rewrite (avg_stats _ _ _ _ _ _ H).
  - apply (avg_frame _ _ _ _ _ _ H). left. apply (wf_handle _ Hwf).
Qed.

Lemma wf_averaged this sender subject s avg s' :
  wf s -> averaged this sender subject s avg s' -> wf s'.
Proof.
  intros Hwf H.
  pose proof (average_handles_range (getEncryptedSum s subject) (getCount s subject)) as Hk.
  pose proof (averaged_counter _ _ _ _ _ _ H) as Hc.
  pose proof (avg_handle _ _ _ _ _ _ H) as Hh. rewrite fresh_add in Hh.
  split.
  - intros h Hge. rewrite (avg_frame _ _ _ _ _ _ H) by lia.
    apply (wf_store _ Hwf). lia.
  - intros h a. rewrite (avg_acl _ _ _ _ _ _ H).
    rewrite !elem_of_union, !elem_of_singleton.
    intros [[= -> ->]|[[= -> ->]|Hin]]; [lia | lia |].
    apply (wf_acl _ Hwf) in Hin. lia.
  - intros other. unfold getEncryptedSum. rewrite (avg_stats _ _ _ _ _ _ H).
    pose proof (wf_handle _ Hwf other). unfold getEncryptedSum in *. lia.
  - intros other. rewrite (averaged_sumPlain _ _ _ _ _ _ other Hwf H).
    apply (wf_sum _ Hwf).
  - intros other. unfold getCount. rewrite (avg_stats _ _ _ _ _ _ H).
    apply (wf_count _ Hwf).
Qed.

(** ** Calls as transactions *)

Lemma submit_rejected_proof this subject cs s g :
  submitEncryptedScore this subject cs ProofRejected s g = Abort InvalidInputProof s.
Proof. reflexivity. Qed.

Lemma submit_rejected_type this subject cs s g :
  ext_type cs <> Uint8 ->
  submitEncryptedScore this subject cs ProofVerifies s g = Abort TypeMismatch s.
Proof.
  intros Hty. unfold submitEncryptedScore, FHE.fromExternal, bind.
  destruct (decide _); [done | reflexivity].
Qed.

Lemma submit_call this subject cs pf s g :
  wf s ->
  match transact (submitEncryptedScore this subject cs pf) s g with
  | (Success _, s') =>
      pf = ProofVerifies /\ ext_type cs = Uint8 /\
      (submit_cost (getEncryptedSum s subject) <= g)%nat /\
      submitted this subject (ext_plain cs) s s'
  | (Reverted e, s') =>
      s' = s /\
      match pf with
      | ProofRejected => e = InvalidInputProof
      | ProofVerifies =>
          if decide (ext_type cs = Uint8)
          then e = OutOfGas /\ (g < submit_cost (getEncryptedSum s subject))%nat
          else e = TypeMismatch
      end
  end.
Proof.
  intros Hwf. unfold transact. destruct pf.
  - destruct (decide (ext_type cs = Uint8)) as [Hty|Hty].
    + pose proof (submit_spec this subject cs s g Hty (wf_handle _ Hwf subject)) as H.
      unfold triple in H.
      destruct (submitEncryptedScore this subject cs ProofVerifies s g); [|done].
      destruct H as [H ->]. split; [done|]. split; [done|]. split; [lia | done].
    + rewrite submit_rejected_type by done. done.
  - rewrite submit_rejected_proof. done.
Qed.

Lemma submit_succeeds this subject cs s g :
  wf s -> ext_type cs = Uint8 ->
  (submit_cost (getEncryptedSum s subject) <= g)%nat ->
  exists s',
    transact (submitEncryptedScore this subject cs ProofVerifies) s g = (Success tt, s') /\
    submitted this subject (ext_plain cs) s s'.
Proof.
  intros Hwf Hty Hg.
  pose proof (submit_call this subject cs ProofVerifies s g Hwf) as H.
  destruct (transact _ s g) as [[[]|e] s'].
  - exists s'. split; [reflexivity | apply H].
  - destruct H as [_ H]. destruct (decide _); [lia | done].
Qed.

Lemma average_call this sender subject s g :
  wf s ->
  match transact (getEncryptedAverage this sender subject) s g with
  | (Success avg, s') =>
      (average_cost (getEncryptedSum s subject) (getCount s subject) <= g)%nat /\
      averaged this sender subject s avg s'
  | (Reverted e, s') =>
      s' = s /\ e = OutOfGas /\
      (g < average_cost (getEncryptedSum s subject) (getCount s subject))%nat
  end.
Proof.
  intros Hwf. unfold transact.
  assert (Hs : is_Some (sumPlain s subject)).
  { destruct (wf_sum _ Hwf subject) as (v & -> & _). eauto. }
  pose proof (average_spec this sender subject s g (wf_handle _ Hwf subject) Hs) as H.
  unfold triple in H.
  destruct (getEncryptedAverage this sender subject s g); [|done].
  destruct H as [H ->]. split; [lia | done].
Qed.

Lemma average_succeeds this sender subject s g :
  wf s ->
  (average_cost (getEncryptedSum s subject) (getCount s subject) <= g)%nat ->
  exists avg s',
    transact (getEncryptedAverage this sender subject) s g = (Success avg, s') /\
    averaged this sender subject s avg s'.
Proof.
  intros Hwf Hg.
  pose proof (average_call this sender subject s g Hwf) as H.
  destruct (transact _ s g) as [[avg|e] s'].
  - exists avg, s'. split; [reflexivity | apply H].
  - lia.
Qed.

Lemma wf_execute this s c : wf s -> wf (execute this s c).
Proof.
  intros Hwf. destruct c as [sender subject cs pf g|sender subject g]; cbn [execute].
  - pose proof (submit_call this subject cs pf s g Hwf) as H.
    destruct (transact _ s g) as [[[]|e] s']; cbn [snd].
    + eapply wf_submitted; [done | apply H].
    + by destruct H as [-> _].
  - pose proof (average_call this sender subject s g Hwf) as H.
    destruct (transact _ s g) as [[avg|e] s']; cbn [snd].
    + eapply wf_averaged; [done | apply H].
    + by destruct H as [-> _].
Qed.

Lemma wf_run this calls s : wf s -> wf (run this calls s).
Proof.
  revert s. induction calls as [|c calls IH]; intros s Hwf; [done|].
  apply IH, wf_execute, Hwf.
Qed.

Lemma wf_history this calls : wf (run this calls deployed).
Proof. apply wf_run, wf_deployed. Qed.

(** ** The ledger of one subject along a history *)

Lemma wrap32_add_l a b : wrap32 (wrap32 a + b) = wrap32 (a + b).
Proof. unfold wrap32. apply Zplus_mod_idemp_l. Qed.

Lemma execute_ledger this subject s c v0 :
  wf s -> sumPlain s subject = Some v0 ->
  getCount (execute this s c) subject =
    wrap32 (getCount s subject + Z.of_nat (length (accepted this subject [c] s))) /\
  sumPlain (execute this s c) subject =
    Some (wrap32 (v0 + total (clamp <$> accepted this subject [c] s))).
Proof.
  intros Hwf Hv0.
  destruct (wf_sum _ Hwf subject) as (v0' & Hv0' & Hr0). rewrite Hv0 in Hv0'.
  injection Hv0' as <-.
  pose proof (wf_count _ Hwf subject) as Hc0.
  assert (Hsame : forall s', getCount s' subject = getCount s subject ->
            sumPlain s' subject = sumPlain s subject ->
            getCount s' subject =
              wrap32 (getCount s subject + Z.of_nat (length (@nil Z))) /\
            sumPlain s' subject = Some (wrap32 (v0 + total (clamp <$> @nil Z)))).
  { intros s' -> ->. cbn. rewrite Hv0, !Z.add_0_r, !wrap32_small by lia. done. }
  destruct c as [sender target cs pf g|sender target g]; cbn [execute accepted].
  - pose proof (submit_call this target cs pf s g Hwf) as H.
    destruct (transact _ s g) as [[[]|e] s']; cbn [fst snd committed].
    + destruct H as (_ & _ & _ & H). case_bool_decide as Heq; cbn [andb app].
      * subst target. cbn [length fmap list_fmap total foldr].
        rewrite (submitted_count _ _ _ _ _ H). split; [reflexivity|].
        unfold sumPlain, cleartext. rewrite (sub_sum _ _ _ _ _ H _ Hv0).
        rewrite (submitted_sum_handle _ _ _ _ _ H), isInitialized_fresh.
        cbn. by rewrite Z.add_0_r.
      * apply Hsame.
        -- unfold getCount. by rewrite (submitted_other _ _ _ _ _ _ H).
        -- apply sumPlain_frame.
           ++ unfold getEncryptedSum. by rewrite (submitted_other _ _ _ _ _ _ H).
           ++ apply (sub_frame _ _ _ _ _ H). left. apply (wf_handle _ Hwf).
    + destruct H as [-> _]. rewrite andb_false_r. by apply Hsame.
  - pose proof (average_call this sender target s g Hwf) as H.
    destruct (transact _ s g) as [[avg|e] s']; cbn [fst snd app].
    + destruct H as [_ H]. apply Hsame.
      * unfold getCount. by rewrite (avg_stats _ _ _ _ _ _ H).
      * by apply (averaged_sumPlain _ _ _ _ _ _ subject Hwf H).
    + destruct H as [-> _]. by apply Hsame.
Qed.

Lemma accepted_cons this subject c rest s :
  accepted this subject (c :: rest) s =
    accepted this subject [c] s ++ accepted this subject rest (execute this s c).
Proof. cbn [accepted]. by rewrite app_nil_r. Qed.

Lemma total_app l1 l2 : total (l1 ++ l2) = total l1 + total l2.
Proof. unfold total. induction l1 as [|x l1 IH]; cbn; [done | lia]. Qed.

Lemma run_ledger this subject calls s v0 :
  wf s -> sumPlain s subject = Some v0 ->
  getCount (run this calls s) subject =
    wrap32 (getCount s subject + Z.of_nat (length (accepted this subject calls s))) /\
  sumPlain (run this calls s) subject =
    Some (wrap32 (v0 + total (clamp <$> accepted this subject calls s))).
Proof.
  revert s v0. induction calls as [|c calls IH]; intros s v0 Hwf Hv0.
  - destruct (wf_sum _ Hwf subject) as (v0' & Hv0' & Hr0). rewrite Hv0 in Hv0'.
    injection Hv0' as <-. pose proof (wf_count _ Hwf subject).
    cbn. rewrite !Z.add_0_r, !wrap32_small by lia. done.
  - destruct (execute_ledger this subject s c v0 Hwf Hv0) as [Hc Hs].
    destruct (IH _ _ (wf_execute this s c Hwf) Hs) as [Hc' Hs'].
    change (run this (c :: calls) s) with (run this calls (execute this s c)).
    rewrite accepted_cons, length_app, fmap_app, total_app.
    rewrite Hc', Hs', Hc. rewrite !wrap32_add_l. split; [f_equal; lia|].
    do 2 f_equal. lia.
Qed.

Lemma submit_cost_bound old : (submit_cost old <= SUBMIT_GAS)%nat.
Proof. unfold submit_cost, SUBMIT_GAS. pose proof (submit_handles_range old). lia. Qed.

Lemma average_cost_bound old n : (average_cost old n <= AVERAGE_GAS)%nat.
Proof.
  unfold average_cost, AVERAGE_GAS. pose proof (average_handles_range old n). lia.
Qed.

Lemma fresh_subject s subject :
  _statsBySubject s !! subject = None ->
  getCount s subject = 0 /\ getEncryptedSum s subject = 0%N /\ sumPlain s subject = Some 0.
Proof.
  intros Hnone. unfold sumPlain, getCount, getEncryptedSum.
  rewrite lookup_total_alt, Hnone. done.
Qed.

Lemma total_clamp_bound l :
  Z.of_nat (length l) <= total (clamp <$> l) <= 5 * Z.of_nat (length l).
Proof.
  induction l as [|x l IH]; [cbn; lia|].
  pose proof (clamp_range x). cbn [length fmap list_fmap total foldr] in *.
  fold (total (clamp <$> l)). lia.
Qed.

Lemma total_replicate n v : total (clamp <$> replicate n v) = Z.of_nat n * clamp v.
Proof.
  induction n as [|n IH]; [done|].
  cbn [replicate fmap list_fmap total foldr]. fold (total (clamp <$> replicate n v)).
  lia.
Qed.

Lemma accepted_replicate this sender subject v g n s :
  wf s -> (SUBMIT_GAS <= g)%nat ->
  accepted this subject
    (replicate n (Submit sender subject (mkExternal Uint8 v) ProofVerifies g)) s =
  replicate n v.
Proof.
  intros Hwf Hg. revert s Hwf. induction n as [|n IH]; intros s Hwf; [done|].
  cbn [replicate accepted].
  rewrite (IH _ (wf_execute this s _ Hwf)).
  destruct (submit_succeeds this subject (mkExternal Uint8 v) s g Hwf eq_refl) as (s' & -> & _).
  { pose proof (submit_cost_bound (getEncryptedSum s subject)). lia. }
  rewrite bool_decide_eq_true_2 by done. done.
Qed.

Lemma execute_initialised this subject s c :
  wf s ->
  FHE.isInitialized (getEncryptedSum s subject) = true \/ accepted this subject [c] s <> [] ->
  FHE.isInitialized (getEncryptedSum (execute this s c) subject) = true.
Proof.
  intros Hwf Hor.
  destruct c as [sender target cs pf g|sender target g]; cbn [execute accepted] in *.
  - pose proof (submit_call this target cs pf s g Hwf) as H.
    destruct (transact _ s g) as [[[]|e] s']; cbn [fst snd committed] in *.
    + destruct H as (_ & _ & _ & H). case_bool_decide as Heq; cbn [andb app] in *.
      * subst. by rewrite (submitted_sum_handle _ _ _ _ _ H).
      * destruct Hor as [Hi|]; [|done]. unfold getEncryptedSum in *.
        by rewrite (submitted_other _ _ _ _ _ _ H).
    + destruct H as [-> _]. rewrite andb_false_r in Hor. by destruct Hor.
  - pose proof (average_call this sender target s g Hwf) as H.
    destruct Hor as [Hi|]; [|done].
    destruct (transact _ s g) as [[avg|e] s']; cbn [fst snd].
    + destruct H as [_ H]. unfold getEncryptedSum in *.
      by rewrite (avg_stats _ _ _ _ _ _ H).
    + by destruct H as [-> _].
Qed.

Lemma run_initialised this subject calls s :
  wf s ->
  FHE.isInitialized (getEncryptedSum s subject) = true \/ accepted this subject calls s <> [] ->
  FHE.isInitialized (getEncryptedSum (run this calls s) subject) = true.
Proof.
  revert s. induction calls as [|c calls IH]; intros s Hwf Hor.
  - by destruct Hor.
  - change (run this (c :: calls) s) with (run this calls (execute this s c)).
    apply IH; [by apply wf_execute|].
    rewrite accepted_cons in Hor.
    destruct (accepted this subject [c] s) as [|x l] eqn:Hacc.
    + destruct Hor as [Hi|Hne]; [|by right].
      left. apply execute_initialised; auto.
    + left. apply execute_initialised; [done|]. right. by rewrite Hacc.
Qed.

(** * The claims *)

(** C3 (as amended).  Along any history that starts in a state where the
    subject was never written, the subject's count is the number of
    committed submissions modulo 2^32 and its sum decrypts to the sum of the
    clamped contributions modulo 2^32.  Both are exact, and the stored
    handle is the one that decrypts to the sum, as long as five times the
    number of submissions stays below 2^32. *)
Theorem submissions_accumulate this subject calls s :
  wf s ->
  _statsBySubject s !! subject = None ->
  let scores := accepted this subject calls s in
  let s' := run this calls s in
  getCount s' subject = Z.of_nat (length scores) mod 2 ^ 32 /\
  sumPlain s' subject = Some (total (clamp <$> scores) mod 2 ^ 32) /\
  (5 * Z.of_nat (length scores) < 2 ^ 32 ->
   getCount s' subject = Z.of_nat (length scores) /\
   sumPlain s' subject = Some (total (clamp <$> scores)) /\
   (scores <> [] ->
    cleartext s' (getEncryptedSum s' subject) = Some (total (clamp <$> scores)))).
Proof.
  intros Hwf Hnone scores s'.
  destruct (fresh_subject s subject Hnone) as (Hc & Hh & Hs).
  destruct (run_ledger this subject calls s 0 Hwf Hs) as [Hcount Hsum].
  rewrite Hc in Hcount. rewrite Z.add_0_l in Hcount, Hsum.
  fold scores s' in Hcount, Hsum. unfold wrap32 in Hcount, Hsum.
  split; [done|]. split; [done|].
  intros Hsmall. pose proof (total_clamp_bound scores) as Hb.
  rewrite Z.mod_small in Hcount by lia. rewrite Z.mod_small in Hsum by lia.
  split; [done|]. split; [done|].
  intros Hne. rewrite <- Hsum. unfold sumPlain.
  unfold s'. rewrite run_initialised; [done | done | by right].
Qed.

Lemma submissions_accumulate_witness :
  let calls := [Submit 9 7 (mkExternal Uint8 255) ProofVerifies 11;
                Submit 8 7 (mkExternal Uint8 0) ProofVerifies 11;
                Average 9 7 6;
                Submit 9 7 (mkExternal Uint8 3) ProofVerifies 11]%N in
  accepted 0 7 calls deployed = [255; 0; 3] /\
  getCount (run 0 calls deployed) 7 = 3 /\
  sumPlain (run 0 calls deployed) 7 = Some 9.
Proof.
  intros calls.
  destruct (submissions_accumulate 0%N 7%N calls deployed wf_deployed eq_refl)
    as (Hc & Hs & _).
  split; [vm_compute; reflexivity|]. split.
  - rewrite Hc. vm_compute. reflexivity.
  - rewrite Hs. vm_compute. reflexivity.
Defined.

Lemma replicate_history this sender subject v g n :
  (SUBMIT_GAS <= g)%nat ->
  let calls := replicate n (Submit sender subject (mkExternal Uint8 v) ProofVerifies g) in
  accepted this subject calls deployed = replicate n v /\
  getCount (run this calls deployed) subject = wrap32 (Z.of_nat n) /\
  sumPlain (run this calls deployed) subject = Some (wrap32 (Z.of_nat n * clamp v)) /\
  wf (run this calls deployed).
Proof.
  intros Hg calls.
  pose proof (accepted_replicate this sender subject v g n deployed wf_deployed Hg) as Hacc.
  fold calls in Hacc.
  destruct (run_ledger this subject calls deployed 0 wf_deployed) as [Hc Hs].
  { by apply fresh_subject. }
  rewrite Hacc, length_replicate in Hc. rewrite Hacc, total_replicate in Hs.
  split; [done|]. split; [|split; [done | apply wf_history]].
  rewrite Hc. unfold getCount. by rewrite deployed_stats.
Qed.

(** C3, counterexample.  After 858993460 committed submissions of the score
    5 to a fresh subject the contributions add up to 4294967300, but the
    stored sum decrypts to 4. *)
Lemma submissions_sum_counterexample :
  let calls :=
    replicate (N.to_nat 858993460)
      (Submit 1 7 (mkExternal Uint8 5) ProofVerifies 11)%N in
  let scores := accepted 0 7 calls deployed in
  let s' := run 0 calls deployed in
  scores = replicate (N.to_nat 858993460) 5 /\
  total (clamp <$> scores) = 4294967300 /\
  sumPlain s' 7 = Some 4 /\
  cleartext s' (getEncryptedSum s' 7) <> Some (total (clamp <$> scores)).
Proof.
  intros calls scores s'. unfold scores, s', calls. clear calls scores s'.
  assert (Hn : Z.of_nat (N.to_nat 858993460) = 858993460) by (by rewrite N_nat_Z).
  revert Hn. generalize (N.to_nat 858993460). intros n Hn.
  destruct (replicate_history 0%N 1%N 7%N 5 11 n) as (Hacc & Hc & Hs & Hwf);
    [unfold SUBMIT_GAS; lia|].
  cbv zeta in Hacc, Hc, Hs, Hwf.
  rewrite Hacc, total_replicate, Hn.
  rewrite Hn in Hs. change (wrap32 (858993460 * clamp 5)) with 4 in Hs.
  split; [done|]. split; [done|]. split; [done|].
  assert (Hne : replicate n 5 <> []).
  { destruct n; [discriminate Hn | discriminate]. }
  pose proof (run_initialised 0%N 7%N
    (replicate n (Submit 1 7 (mkExternal Uint8 5) ProofVerifies 11)%N)
    deployed wf_deployed) as Hinit.
  rewrite Hacc in Hinit. specialize (Hinit (or_intror Hne)).
  unfold sumPlain in Hs. rewrite Hinit in Hs. rewrite Hs. discriminate.
Qed.

Lemma averaged_cleartext this sender subject s avg s' v0 :
  averaged this sender subject s avg s' ->
  sumPlain s subject = Some v0 ->
  cleartext s' avg = Some (average_of v0 (getCount s subject)).
Proof.
  intros H Hv0. unfold cleartext. by rewrite (avg_value _ _ _ _ _ _ H _ Hv0).
Qed.

(** What [getEncryptedAverage] returns.  On a subject whose count is 0 the
    average decrypts to 0, a committed result and no error.  On a subject
    with count > 0 the 32-bit product sum * 100 is divided by the count; as
    long as sum * 100 is below 2^32 the result is floor(sum * 100 / count),
    rounded down and never to nearest. *)
Theorem average_decrypts this sender subject s g total_clear :
  wf s ->
  sumPlain s subject = Some total_clear ->
  (AVERAGE_GAS <= g)%nat ->
  exists avg s',
    transact (getEncryptedAverage this sender subject) s g = (Success avg, s') /\
    (getCount s subject = 0 ->
     cleartext s' avg = Some 0 /\
     events s' = events s ++ [TrivialEncrypt 0 Uint32 avg]) /\
    (0 < getCount s subject ->
     cleartext s' avg = Some (((total_clear * 100) mod 2 ^ 32) / getCount s subject)) /\
    (0 < getCount s subject -> total_clear * 100 < 2 ^ 32 ->
     exists q,
       cleartext s' avg = Some q /\
       q = total_clear * 100 / getCount s subject /\
       q * getCount s subject <= total_clear * 100 < (q + 1) * getCount s subject).
Proof.
  intros Hwf Hsum Hg.
  destruct (average_succeeds this sender subject s g Hwf) as (avg & s' & Hrun & Hav).
  { pose proof (average_cost_bound (getEncryptedSum s subject) (getCount s subject)). lia. }
  exists avg, s'. split; [done|].
  pose proof (averaged_cleartext _ _ _ _ _ _ _ Hav Hsum) as Hval.
  unfold average_of, wrap32, SCALE in Hval.
  destruct (wf_sum _ Hwf subject) as (v & Hv & Hrange).
  rewrite Hsum in Hv. injection Hv as <-.
  split; [|split].
  - intros Hz. split; [by rewrite Hz in Hval|].
    rewrite (avg_events _ _ _ _ _ _ Hav), (avg_handle _ _ _ _ _ _ Hav).
    unfold average_requests, average_handles. by rewrite Hz.
  - intros Hpos. destruct (Z.eqb_spec (getCount s subject) 0); [lia | done].
  - intros Hpos Hsmall. destruct (Z.eqb_spec (getCount s subject) 0); [lia|].
    rewrite Z.mod_small in Hval by lia.
    eexists. split; [done|]. split; [done|].
    pose proof (Z.mul_div_le (total_clear * 100) (getCount s subject)).
    pose proof (Z.mul_succ_div_gt (total_clear * 100) (getCount s subject)).
    lia.
Qed.

Lemma average_decrypts_witness :
  let s := run 0 [Submit 9 7 (mkExternal Uint8 4) ProofVerifies 11;
                  Submit 8 7 (mkExternal Uint8 2) ProofVerifies 11;
                  Submit 9 7 (mkExternal Uint8 5) ProofVerifies 11]%N deployed in
  getCount s 7 = 3 /\ sumPlain s 7 = Some 11 /\
  exists avg s',
    transact (getEncryptedAverage 0 9 7) s 6 = (Success avg, s') /\
    cleartext s' avg = Some 366.
Proof.
  intros s.
  assert (Hsum : sumPlain s 7 = Some 11) by (vm_compute; reflexivity).
  assert (Hcnt : getCount s 7 = 3) by (vm_compute; reflexivity).
  split; [done|]. split; [done|].
  destruct (average_decrypts 0%N 9%N 7%N s 6 11) as (avg & s' & Hrun & _ & Hval & _).
  - apply wf_history.
  - exact Hsum.
  - unfold AVERAGE_GAS. lia.
  - exists avg, s'. split; [exact Hrun|].
    rewrite Hval by (rewrite Hcnt; lia). rewrite Hcnt. reflexivity.
Defined.

(** Sum 12 over count 3 gives 400; sum 11 over count 3 gives 366. *)
Example average_12_3 :
  let s := run 0 [Submit 9 7 (mkExternal Uint8 4) ProofVerifies 11;
                  Submit 8 7 (mkExternal Uint8 3) ProofVerifies 11;
                  Submit 9 7 (mkExternal Uint8 5) ProofVerifies 11]%N deployed in
  let r := transact (getEncryptedAverage 0 9 7) s 6 in
  sumPlain s 7 = Some 12 /\ getCount s 7 = 3 /\
  match r.1 with Success avg => cleartext r.2 avg | Reverted _ => None end = Some 400.
Proof. vm_compute. done. Qed.

Example average_11_3 :
  let s := run 0 [Submit 9 7 (mkExternal Uint8 4) ProofVerifies 11;
                  Submit 8 7 (mkExternal Uint8 2) ProofVerifies 11;
                  Submit 9 7 (mkExternal Uint8 5) ProofVerifies 11]%N deployed in
  let r := transact (getEncryptedAverage 0 9 7) s 6 in
  sumPlain s 7 = Some 11 /\ getCount s 7 = 3 /\
  match r.1 with Success avg => cleartext r.2 avg | Reverted _ => None end = Some 366.
Proof. vm_compute. done. Qed.

(** C1.  The contract's comments give the average as
    floor((sum * SCALE) / count).  After 8589935 committed submissions of the
    score 5 the sum is 42949675 and the count 8589935, both within 32 bits,
    and floor(sum * 100 / count) is 500, within 32 bits as well; the handle
    returned by [getEncryptedAverage] decrypts to 0, because the intermediate
    product sum * 100 is formed in 32 bits. *)
Lemma average_wrong_after_overflow :
  let s :=
    run 0 (replicate (N.to_nat 8589935)
             (Submit 1 7 (mkExternal Uint8 5) ProofVerifies 11)%N) deployed in
  getCount s 7 = 8589935 /\
  sumPlain s 7 = Some 42949675 /\
  42949675 * 100 / 8589935 = 500 /\
  exists avg s',
    transact (getEncryptedAverage 0 1 7) s 6 = (Success avg, s') /\
    cleartext s' avg = Some 0.
Proof.
  cbv zeta.
  assert (Hn : Z.of_nat (N.to_nat 8589935) = 8589935) by (by rewrite N_nat_Z).
  revert Hn. generalize (N.to_nat 8589935). intros n Hn.
  destruct (replicate_history 0%N 1%N 7%N 5 11 n) as (_ & Hc & Hs & Hwf);
    [unfold SUBMIT_GAS; lia|].
  cbv zeta in Hc, Hs, Hwf. rewrite Hn in Hc, Hs.
  change (wrap32 8589935) with 8589935 in Hc.
  change (wrap32 (8589935 * clamp 5)) with 42949675 in Hs.
  split; [done|]. split; [done|]. split; [reflexivity|].
  set (s := run _ _ _) in *.
  destruct (average_succeeds 0%N 1%N 7%N s 6 Hwf) as (avg & s' & Hrun & Hav).
  { pose proof (average_cost_bound (getEncryptedSum s 7) (getCount s 7)).
    unfold AVERAGE_GAS in *. lia. }
  exists avg, s'. split; [done|].
  rewrite (averaged_cleartext _ _ _ _ _ _ _ Hav Hs), Hc. reflexivity.
Qed.

Lemma submitted_onchain this subject v v' s s1 s2 :
  submitted this subject v s s1 -> submitted this subject v' s s2 ->
  onchain s1 = onchain s2.
Proof.
  intros H1 H2. unfold onchain.
  rewrite (sub_stats _ _ _ _ _ H1), (sub_stats _ _ _ _ _ H2).
  rewrite (sub_acl _ _ _ _ _ H1), (sub_acl _ _ _ _ _ H2).
  rewrite (sub_counter _ _ _ _ _ H1), (sub_counter _ _ _ _ _ H2).
  rewrite (sub_events _ _ _ _ _ H1), (sub_events _ _ _ _ _ H2).
  reflexivity.
Qed.

Lemma submit_requests_blind c old :
  Forall (fun e => is_decryption e = false) (submit_requests c old).
Proof.
  unfold submit_requests. destruct (FHE.isInitialized old); repeat constructor.
Qed.

Lemma submitted_sumPlain this subject v s s' v0 :
  submitted this subject v s s' -> sumPlain s subject = Some v0 ->
  sumPlain s' subject = Some (wrap32 (v0 + clamp v)) /\
  cleartext s' (getEncryptedSum s' subject) = Some (wrap32 (v0 + clamp v)).
Proof.
  intros H Hv0. unfold sumPlain, cleartext.
  rewrite (sub_sum _ _ _ _ _ H _ Hv0).
  rewrite (submitted_sum_handle _ _ _ _ _ H), isInitialized_fresh. done.
Qed.

(** The score submitted does not influence anything visible on chain: the
    receipt, the stored handles and counts, the ACL and the requests sent to
    the coprocessor are the same for any two cleartexts. *)
Lemma submit_blind this subject s g v v' :
  wf s ->
  let r := transact (submitEncryptedScore this subject (mkExternal Uint8 v) ProofVerifies) s g in
  let r' := transact (submitEncryptedScore this subject (mkExternal Uint8 v') ProofVerifies) s g in
  r.1 = r'.1 /\ onchain r.2 = onchain r'.2.
Proof.
  intros Hwf r r'.
  pose proof (submit_call this subject (mkExternal Uint8 v) ProofVerifies s g Hwf) as H.
  pose proof (submit_call this subject (mkExternal Uint8 v') ProofVerifies s g Hwf) as H'.
  fold r in H. fold r' in H'.
  destruct r as [[[]|e] s1], r' as [[[]|e'] s2]; cbn [fst snd] in *.
  - destruct H as (_ & _ & _ & H), H' as (_ & _ & _ & H').
    split; [done|]. eapply submitted_onchain; eauto.
  - destruct H as (_ & _ & Hg & _), H' as (_ & H').
    destruct (decide _) as [_|Hne]; [lia | by destruct Hne].
  - destruct H' as (_ & _ & Hg & _), H as (_ & H).
    destruct (decide _) as [_|Hne]; [lia | by destruct Hne].
  - destruct H as (-> & H), H' as (-> & H').
    destruct (decide _) as [_|Hne]; [|by destruct Hne].
    destruct H as [-> _], H' as [-> _]. done.
Qed.

(** C2.  Whatever raw score is submitted (0, 6 and 255 included), the
    contribution added to the subject's sum is min(max(score, 1), 5), a value
    in [1,5]; the requests made to obtain it are a max against an encrypted 1
    followed by a min against an encrypted 5, none of them a decryption, and
    nothing observable on chain depends on the score. *)
Theorem submit_clamps this subject s g v old :
  wf s ->
  sumPlain s subject = Some old ->
  (SUBMIT_GAS <= g)%nat ->
  exists s',
    transact (submitEncryptedScore this subject (mkExternal Uint8 v) ProofVerifies) s g
      = (Success tt, s') /\
    cleartext s' (getEncryptedSum s' subject) = Some ((old + Z.min (Z.max v 1) 5) mod 2 ^ 32) /\
    1 <= Z.min (Z.max v 1) 5 <= 5 /\
    events s' = events s ++ submit_requests (counter s) (getEncryptedSum s subject) /\
    Forall (fun e => is_decryption e = false)
      (submit_requests (counter s) (getEncryptedSum s subject)) /\
    (forall v' g',
       let r := transact
         (submitEncryptedScore this subject (mkExternal Uint8 v) ProofVerifies) s g' in
       let r' := transact
         (submitEncryptedScore this subject (mkExternal Uint8 v') ProofVerifies) s g' in
       r.1 = r'.1 /\ onchain r.2 = onchain r'.2).
Proof.
  intros Hwf Hold Hg.
  destruct (submit_succeeds this subject (mkExternal Uint8 v) s g Hwf eq_refl)
    as (s' & Hrun & Hsub).
  { pose proof (submit_cost_bound (getEncryptedSum s subject)). lia. }
  exists s'. split; [done|].
  destruct (submitted_sumPlain _ _ _ _ _ _ Hsub Hold) as [_ Hclear].
  split; [exact Hclear|]. split; [lia|].
  split; [apply (sub_events _ _ _ _ _ Hsub)|].
  split; [apply submit_requests_blind|].
  intros v' g'. by apply submit_blind.
Qed.

Lemma submit_clamps_witness :
  exists s',
    transact (submitEncryptedScore 0 7 (mkExternal Uint8 255) ProofVerifies) deployed 11
      = (Success tt, s') /\
    cleartext s' (getEncryptedSum s' 7) = Some 5.
Proof.
  destruct (submit_clamps 0%N 7%N deployed 11 255 0) as (s' & Hrun & Hval & _).
  - exact wf_deployed.
  - vm_compute. reflexivity.
  - unfold SUBMIT_GAS. lia.
  - exists s'. split; [exact Hrun | exact Hval].
Defined.

(** Out-of-range and boundary scores, evaluated. *)
Example clamp_values :
  clamp 0 = 1 /\ clamp 1 = 1 /\ clamp 3 = 3 /\ clamp 5 = 5 /\ clamp 6 = 5 /\ clamp 255 = 5.
Proof. vm_compute. done. Qed.

Example submit_out_of_range :
  let s := run 0 [Submit 9 7 (mkExternal Uint8 0) ProofVerifies 11;
                  Submit 9 7 (mkExternal Uint8 6) ProofVerifies 11;
                  Submit 9 7 (mkExternal Uint8 255) ProofVerifies 11]%N deployed in
  getCount s 7 = 3 /\ cleartext s (getEncryptedSum s 7) = Some 11.
Proof. vm_compute. done. Qed.

(** ** One call seen from one subject *)

(** A call either leaves the subject's record as it is, or is a committed
    submission for that subject. *)
Lemma execute_cases this s c subject :
  wf s ->
  (_statsBySubject (execute this s c) !! subject = _statsBySubject s !! subject /\
   sumPlain (execute this s c) subject = sumPlain s subject) \/
  (exists sender cs g,
     c = Submit sender subject cs ProofVerifies g /\
     transact (submitEncryptedScore this subject cs ProofVerifies) s g
       = (Success tt, execute this s c) /\
     submitted this subject (ext_plain cs) s (execute this s c)).
Proof.
  intros Hwf.
  assert (Hframe : forall s', _statsBySubject s' !! subject = _statsBySubject s !! subject ->
            (forall h, (h < N.pos (counter s))%N -> ciphertexts s' !! h = ciphertexts s !! h) ->
            _statsBySubject s' !! subject = _statsBySubject s !! subject /\
            sumPlain s' subject = sumPlain s subject).
  { intros s' Hst Hfr. split; [done|]. apply sumPlain_frame.
    - unfold getEncryptedSum. by rewrite !lookup_total_alt, Hst.
    - apply Hfr, (wf_handle _ Hwf). }
  destruct c as [sender target cs pf g|sender target g]; cbn [execute].
  - pose proof (submit_call this target cs pf s g Hwf) as H.
    destruct (transact _ s g) as [[[]|e] s'] eqn:Hrun; cbn [snd].
    + destruct H as (-> & _ & _ & H).
      destruct (decide (target = subject)) as [->|Hne].
      * right. exists sender, cs, g. done.
      * left. apply Hframe.
        -- rewrite (sub_stats _ _ _ _ _ H). by rewrite lookup_insert_ne.
        -- intros h Hh. apply (sub_frame _ _ _ _ _ H). by left.
    + destruct H as [-> _]. by left.
  - pose proof (average_call this sender target s g Hwf) as H.
    destruct (transact _ s g) as [[avg|e] s']; cbn [snd].
    + destruct H as [_ H]. left. apply Hframe.
      * by rewrite (avg_stats _ _ _ _ _ _ H).
      * intros h Hh. apply (avg_frame _ _ _ _ _ _ H). by left.
    + destruct H as [-> _]. by left.
Qed.

Lemma run_untouched this calls s subject :
  wf s -> _statsBySubject s !! subject = None -> untouched subject calls ->
  _statsBySubject (run this calls s) !! subject = None.
Proof.
  revert s. induction calls as [|c calls IH]; intros s Hwf Hnone Hun; [done|].
  change (run this (c :: calls) s) with (run this calls (execute this s c)).
  apply Forall_cons in Hun as [Hc Hun].
  apply IH; [by apply wf_execute | | done].
  destruct (execute_cases this s c subject Hwf) as [[-> _]|(sender & cs & g & -> & _)];
    [done | by destruct Hc].
Qed.

(** C4.  A subject no submission was ever made for has count 0 and the
    uninitialised sum handle, which stands for an encrypted zero.  Reading
    its average does not initialise it.  The first submission with a verified
    8-bit input and a sufficient budget commits: it initialises the sum, by
    adding the contribution to a zero freshly encrypted in that same call, and
    sets the count to 1.  For every subject, in every reachable state, a call
    either leaves count and sum handle both as they were or advances both; a
    verified, budgeted submission advances both, and one whose budget runs
    out, wherever it stops, leaves the state as it was. *)
Theorem lazy_init_atomic this calls subject :
  let s := run this calls deployed in
  (untouched subject calls ->
   getCount s subject = 0 /\
   getEncryptedSum s subject = 0%N /\
   sumPlain s subject = Some 0 /\
   (forall sender g,
      getEncryptedSum (execute this s (Average sender subject g)) subject = 0%N) /\
   (forall sender cs g s',
      transact (submitEncryptedScore this subject cs ProofVerifies) s g = (Success tt, s') ->
      execute this s (Submit sender subject cs ProofVerifies g) = s' /\
      getCount s' subject = 1 /\
      cleartext s' (getEncryptedSum s' subject) = Some (clamp (ext_plain cs)) /\
      exists before,
        events s' =
          events s ++ before ++
          [ TrivialEncrypt 0 Uint32 (fresh (counter s) 6);
            FheAdd (fresh (counter s) 6) (fresh (counter s) 5) (getEncryptedSum s' subject) ]) /\
   (forall sender cs g,
      ext_type cs = Uint8 -> (SUBMIT_GAS <= g)%nat ->
      exists s',
        transact (submitEncryptedScore this subject cs ProofVerifies) s g = (Success tt, s') /\
        execute this s (Submit sender subject cs ProofVerifies g) = s' /\
        getCount s' subject = 1 /\
        FHE.isInitialized (getEncryptedSum s' subject) = true /\
        cleartext s' (getEncryptedSum s' subject) = Some (clamp (ext_plain cs)) /\
        events s' = events s ++ submit_requests (counter s) 0%N)) /\
  (forall c,
     let s' := execute this s c in
     (getCount s' subject = getCount s subject /\
      getEncryptedSum s' subject = getEncryptedSum s subject /\
      sumPlain s' subject = sumPlain s subject) \/
     (getCount s' subject = wrap32 (getCount s subject + 1) /\
      getEncryptedSum s' subject <> getEncryptedSum s subject /\
      exists old score,
        sumPlain s subject = Some old /\
        sumPlain s' subject = Some (wrap32 (old + clamp score)))) /\
  (forall sender cs g,
     ext_type cs = Uint8 -> (SUBMIT_GAS <= g)%nat ->
     let s' := execute this s (Submit sender subject cs ProofVerifies g) in
     getCount s' subject = wrap32 (getCount s subject + 1) /\
     getEncryptedSum s' subject <> getEncryptedSum s subject /\
     exists old,
       sumPlain s subject = Some old /\
       cleartext s' (getEncryptedSum s' subject) =
         Some (wrap32 (old + clamp (ext_plain cs)))) /\
  (forall sender cs pf g,
     (g < submit_cost (getEncryptedSum s subject))%nat ->
     execute this s (Submit sender subject cs pf g) = s).
Proof.
  intros s. pose proof (wf_history this calls) as Hwf. fold s in Hwf.
  assert (Hcommit : forall sender cs g,
    ext_type cs = Uint8 -> (SUBMIT_GAS <= g)%nat ->
    exists s',
      transact (submitEncryptedScore this subject cs ProofVerifies) s g = (Success tt, s') /\
      execute this s (Submit sender subject cs ProofVerifies g) = s' /\
      submitted this subject (ext_plain cs) s s').
  { intros sender cs g Hty Hg.
    destruct (submit_succeeds this subject cs s g Hwf Hty) as (s' & Hrun & H).
    { pose proof (submit_cost_bound (getEncryptedSum s subject)). lia. }
    exists s'. split; [done|]. split; [|done]. cbn [execute]. by rewrite Hrun. }
  split; [|split; [|split]].
  - intros Hun.
    pose proof (run_untouched this calls deployed subject wf_deployed eq_refl Hun) as Hnone.
    fold s in Hnone.
    destruct (fresh_subject s subject Hnone) as (Hc & Hh & Hs).
    assert (Hfirst : forall cs s', submitted this subject (ext_plain cs) s s' ->
      getCount s' subject = 1 /\
      cleartext s' (getEncryptedSum s' subject) = Some (clamp (ext_plain cs))).
    { intros cs s' H. rewrite (submitted_count _ _ _ _ _ H), Hc. split; [reflexivity|].
      destruct (submitted_sumPlain _ _ _ _ _ _ H Hs) as [_ Hclear].
      rewrite Hclear, Z.add_0_l, wrap32_small
        by (pose proof (clamp_range (ext_plain cs)); lia). done. }
    split; [done|]. split; [done|]. split; [done|]. split; [|split].
    + intros sender g.
      destruct (execute_cases this s (Average sender subject g) subject Hwf)
        as [[Hst _]|(? & ? & ? & [=] & _)].
      unfold getEncryptedSum. rewrite lookup_total_alt, Hst, Hnone. done.
    + intros sender cs g s' Hrun.
      pose proof (submit_call this subject cs ProofVerifies s g Hwf) as H.
      rewrite Hrun in H. destruct H as (_ & _ & _ & H).
      split; [cbn [execute]; by rewrite Hrun|].
      destruct (Hfirst cs s' H) as [Hc1 Hclear].
      split; [done|]. split; [done|].
      rewrite (sub_events _ _ _ _ _ H), (submitted_sum_handle _ _ _ _ _ H), Hh.
      eexists. unfold submit_requests. cbn [FHE.isInitialized N.eqb negb submit_handles Nat.sub].
      reflexivity.
    + intros sender cs g Hty Hg.
      destruct (Hcommit sender cs g Hty Hg) as (s' & Hrun & Hex & H).
      exists s'. split; [done|]. split; [done|].
      destruct (Hfirst cs s' H) as [Hc1 Hclear].
      split; [done|]. split.
      { by rewrite (submitted_sum_handle _ _ _ _ _ H). }
      split; [done|]. by rewrite (sub_events _ _ _ _ _ H), Hh.
  - intros c s'.
    destruct (execute_cases this s c subject Hwf)
      as [[Hst Hs]|(sender & cs & g & -> & Hrun & H)].
    + left. unfold getCount, getEncryptedSum. fold s'.
      rewrite !lookup_total_alt. fold s' in Hst. rewrite Hst. done.
    + right. fold s' in H.
      split; [apply (submitted_count _ _ _ _ _ H)|]. split.
      * rewrite (submitted_sum_handle _ _ _ _ _ H), fresh_add.
        pose proof (wf_handle _ Hwf subject). lia.
      * destruct (wf_sum _ Hwf subject) as (old & Hold & _).
        exists old, (ext_plain cs). split; [done|].
        apply (submitted_sumPlain _ _ _ _ _ _ H Hold).
  - intros sender cs g Hty Hg s'.
    destruct (Hcommit sender cs g Hty Hg) as (s1 & _ & Hex & H).
    unfold s'. rewrite Hex.
    split; [apply (submitted_count _ _ _ _ _ H)|]. split.
    + rewrite (submitted_sum_handle _ _ _ _ _ H), fresh_add.
      pose proof (wf_handle _ Hwf subject). lia.
    + destruct (wf_sum _ Hwf subject) as (old & Hold & _).
      exists old. split; [done|]. apply (submitted_sumPlain _ _ _ _ _ _ H Hold).
  - intros sender cs pf g Hg. cbn [execute].
    pose proof (submit_call this subject cs pf s g Hwf) as H.
    destruct (transact _ s g) as [[[]|e] s']; cbn [snd].
    + destruct H as (_ & _ & Hcost & _). lia.
    + by destruct H as [-> _].
Qed.

Lemma lazy_init_atomic_witness :
  let calls := [Submit 9 8 (mkExternal Uint8 4) ProofVerifies 11; Average 9 7 6]%N in
  let s := run 0 calls deployed in
  untouched 7%N calls /\
  getCount s 7 = 0 /\
  getEncryptedSum s 7 = 0%N /\
  exists s',
    transact (submitEncryptedScore 0 7 (mkExternal Uint8 255) ProofVerifies) s 11
      = (Success tt, s') /\
    getCount s' 7 = 1 /\
    FHE.isInitialized (getEncryptedSum s' 7) = true /\
    cleartext s' (getEncryptedSum s' 7) = Some 5.
Proof.
  intros calls s.
  assert (Hun : untouched 7%N calls).
  { unfold calls. repeat constructor. discriminate. }
  split; [exact Hun|].
  destruct (lazy_init_atomic 0%N calls 7%N) as [H _].
  destruct (H Hun) as (Hc & Hh & _ & _ & _ & Hfirst).
  split; [exact Hc|]. split; [exact Hh|].
  destruct (Hfirst 9%N (mkExternal Uint8 255) 11%nat eq_refl) as (s' & Hrun & _ & Hc1 & Hi & Hv & _).
  - unfold SUBMIT_GAS. lia.
  - exists s'. split; [exact Hrun|]. split; [exact Hc1|]. split; [exact Hi | exact Hv].
Defined.

(** The raw run of a submission does pass through a state in which the sum
    is written and the count is not; it is the transaction that hides it. *)
Example submit_interrupted :
  let m := submitEncryptedScore 0 7 (mkExternal Uint8 4) ProofVerifies in
  match m deployed 9%nat with
  | Abort OutOfGas mid =>
      FHE.isInitialized (getEncryptedSum mid 7) = true /\ getCount mid 7 = 0
  | _ => False
  end /\
  transact m deployed 9 = (Reverted OutOfGas, deployed).
Proof. vm_compute. done. Qed.

(** C5.  A submission whose proof does not verify fails with
    [InvalidInputProof], one whose proof verifies for a width other than 8
    bits fails with [TypeMismatch]; both stop before anything is written.
    Whatever the outcome, a call that fails leaves the whole state, and with
    it the subject's sum handle and count, exactly as before; a call that
    commits has updated both. *)
Theorem submit_all_or_nothing this subject cs pf s g :
  wf s ->
  (pf = ProofRejected ->
   submitEncryptedScore this subject cs pf s g = Abort InvalidInputProof s /\
   transact (submitEncryptedScore this subject cs pf) s g = (Reverted InvalidInputProof, s)) /\
  (pf = ProofVerifies -> ext_type cs <> Uint8 ->
   submitEncryptedScore this subject cs pf s g = Abort TypeMismatch s /\
   transact (submitEncryptedScore this subject cs pf) s g = (Reverted TypeMismatch, s)) /\
  (forall r s',
     transact (submitEncryptedScore this subject cs pf) s g = (r, s') ->
     (exists e, r = Reverted e /\ s' = s) \/
     (r = Success tt /\ pf = ProofVerifies /\ ext_type cs = Uint8 /\
      getCount s' subject = wrap32 (getCount s subject + 1) /\
      exists old,
        sumPlain s subject = Some old /\
        cleartext s' (getEncryptedSum s' subject) =
          Some (wrap32 (old + clamp (ext_plain cs))))).
Proof.
  intros Hwf. split; [|split].
  - intros ->. unfold transact. by rewrite submit_rejected_proof.
  - intros -> Hty. unfold transact. by rewrite submit_rejected_type.
  - intros r s' Hrun.
    pose proof (submit_call this subject cs pf s g Hwf) as H. rewrite Hrun in H.
    destruct r as [[]|e].
    + right. destruct H as (-> & Hty & _ & H).
      split; [done|]. split; [done|]. split; [done|].
      split; [apply (submitted_count _ _ _ _ _ H)|].
      destruct (wf_sum _ Hwf subject) as (old & Hold & _).
      exists old. split; [done|]. apply (submitted_sumPlain _ _ _ _ _ _ H Hold).
    + left. exists e. by destruct H as [-> _].
Qed.

Lemma submit_all_or_nothing_witness :
  transact (submitEncryptedScore 0 7 (mkExternal Uint8 4) ProofRejected) deployed 11
    = (Reverted InvalidInputProof, deployed) /\
  transact (submitEncryptedScore 0 7 (mkExternal Uint32 4) ProofVerifies) deployed 11
    = (Reverted TypeMismatch, deployed).
Proof.
  split.
  - destruct (submit_all_or_nothing 0%N 7%N (mkExternal Uint8 4) ProofRejected deployed 11
                wf_deployed) as (H & _).
    exact (proj2 (H eq_refl)).
  - destruct (submit_all_or_nothing 0%N 7%N (mkExternal Uint32 4) ProofVerifies deployed 11
                wf_deployed) as (_ & H & _).
    refine (proj2 (H eq_refl _)). discriminate.
Defined.

(** C6.  A committed [getEncryptedAverage] adds exactly two ACL entries,
    one for the caller and one for the contract, both on the returned handle,
    which had no entry before.  Every subject's record, sum handle and count,
    is left as it was, and every stored sum decrypts as before.  A call that
    fails changes nothing. *)
Theorem average_grants this sender subject s g :
  wf s ->
  match transact (getEncryptedAverage this sender subject) s g with
  | (Success avg, s') =>
      (avg, sender) ∈ acl s' /\ (avg, this) ∈ acl s' /\
      acl s' = {[ (avg, this) ]} ∪ ({[ (avg, sender) ]} ∪ acl s) /\
      (forall p, (avg, p) ∉ acl s) /\
      _statsBySubject s' = _statsBySubject s /\
      (forall other,
         getEncryptedSum s' other = getEncryptedSum s other /\
         getCount s' other = getCount s other /\
         cleartext s' (getEncryptedSum s' other) = cleartext s (getEncryptedSum s other))
  | (Reverted _, s') => s' = s
  end /\
  ((AVERAGE_GAS <= g)%nat ->
   committed (transact (getEncryptedAverage this sender subject) s g).1 = true).
Proof.
  intros Hwf. split.
  - pose proof (average_call this sender subject s g Hwf) as H.
    destruct (transact _ s g) as [[avg|e] s']; [|by destruct H].
    destruct H as [_ H].
    pose proof (avg_handle _ _ _ _ _ _ H) as Hh. rewrite fresh_add in Hh.
    pose proof (average_handles_range (getEncryptedSum s subject) (getCount s subject))
      as Hk.
    rewrite (avg_acl _ _ _ _ _ _ H).
    split; [rewrite !elem_of_union, !elem_of_singleton; auto|].
    split; [rewrite !elem_of_union, !elem_of_singleton; auto|].
    split; [done|]. split.
    + intros p Hin. apply (wf_acl _ Hwf) in Hin. lia.
    + split; [apply (avg_stats _ _ _ _ _ _ H)|].
      intros other. unfold getEncryptedSum, getCount, cleartext.
      rewrite (avg_stats _ _ _ _ _ _ H). split; [done|]. split; [done|].
      rewrite (avg_frame _ _ _ _ _ _ H); [done|]. left. apply (wf_handle _ Hwf).
  - intros Hg.
    destruct (average_succeeds this sender subject s g Hwf) as (avg & s' & -> & _); [|done].
    pose proof (average_cost_bound (getEncryptedSum s subject) (getCount s subject)). lia.
Qed.

Lemma average_grants_witness :
  let s := run 0 [Submit 9 7 (mkExternal Uint8 4) ProofVerifies 11]%N deployed in
  committed (transact (getEncryptedAverage 0 9 7) s 6).1 = true.
Proof.
  intros s.
  destruct (average_grants 0%N 9%N 7%N s 6 (wf_history _ _)) as [_ H].
  apply H. unfold AVERAGE_GAS. lia.
Defined.

(** C7.  No call makes a subject's count smaller, except the one wrap: a
    call leaves the count as it is or replaces it by count + 1 modulo 2^32.
    Every committed submission for the subject adds exactly one; from the
    largest 32-bit value the next submission commits, with no error, and
    leaves the count at zero. *)
Theorem count_monotone this s c subject :
  wf s ->
  let s' := execute this s c in
  (getCount s' subject = getCount s subject \/
   getCount s' subject = (getCount s subject + 1) mod 2 ^ 32) /\
  (getCount s subject < UINT32_MAX ->
   getCount s subject <= getCount s' subject <= getCount s subject + 1) /\
  (forall sender cs g,
     c = Submit sender subject cs ProofVerifies g ->
     ext_type cs = Uint8 -> (SUBMIT_GAS <= g)%nat ->
     transact (submitEncryptedScore this subject cs ProofVerifies) s g = (Success tt, s') /\
     getCount s' subject = (getCount s subject + 1) mod 2 ^ 32 /\
     (getCount s subject < UINT32_MAX -> getCount s' subject = getCount s subject + 1) /\
     (getCount s subject = UINT32_MAX -> getCount s' subject = 0)).
Proof.
  intros Hwf s'. pose proof (wf_count _ Hwf subject) as Hrange.
  assert (Hcases : getCount s' subject = getCount s subject \/
                   getCount s' subject = (getCount s subject + 1) mod 2 ^ 32).
  { destruct (execute_cases this s c subject Hwf) as [[Hst _]|(? & ? & ? & _ & _ & H)].
    - left. unfold getCount. fold s' in Hst. by rewrite !lookup_total_alt, Hst.
    - right. apply (submitted_count _ _ _ _ _ H). }
  split; [exact Hcases|]. split.
  - intros Hlt. unfold UINT32_MAX in Hlt.
    rewrite Z.mod_small in Hcases by lia. lia.
  - intros sender cs g -> Hty Hg.
    destruct (submit_succeeds this subject cs s g Hwf Hty) as (s1 & Hrun & H).
    { pose proof (submit_cost_bound (getEncryptedSum s subject)). lia. }
    assert (s' = s1) as -> by (unfold s'; cbn [execute]; by rewrite Hrun).
    split; [done|].
    pose proof (submitted_count _ _ _ _ _ H) as Hc. unfold wrap32 in Hc.
    split; [done|]. unfold UINT32_MAX. split.
    + intros Hlt. rewrite Hc. apply Z.mod_small. lia.
    + intros Heq. rewrite Hc, Heq. reflexivity.
Qed.

Lemma count_monotone_witness :
  getCount (execute 0 deployed (Submit 9 7 (mkExternal Uint8 4) ProofVerifies 11)%N) 7 = 1.
Proof.
  destruct (count_monotone 0%N deployed
              (Submit 9 7 (mkExternal Uint8 4) ProofVerifies 11)%N 7%N wf_deployed)
    as (_ & _ & H).
  destruct (H 9%N (mkExternal Uint8 4) 11%nat eq_refl eq_refl) as (_ & Hc & _).
  - unfold SUBMIT_GAS. lia.
  - rewrite Hc. reflexivity.
Defined.

(** The wrap is reachable: after 4294967295 committed submissions the count
    is at its maximum, and one more submission commits and leaves it at 0. *)
Lemma count_wraps_after_max :
  let call := Submit 1 7 (mkExternal Uint8 1) ProofVerifies 11%nat in
  let s := run 0 (replicate (N.to_nat 4294967295) call) deployed in
  getCount s 7 = UINT32_MAX /\
  exists s',
    transact (submitEncryptedScore 0 7 (mkExternal Uint8 1) ProofVerifies) s 11
      = (Success tt, s') /\
    getCount s' 7 = 0.
Proof.
  cbv zeta.
  assert (Hn : Z.of_nat (N.to_nat 4294967295) = 4294967295) by (by rewrite N_nat_Z).
  revert Hn. generalize (N.to_nat 4294967295). intros n Hn.
  destruct (replicate_history 0%N 1%N 7%N 1 11 n) as (_ & Hc & _ & Hwf);
    [unfold SUBMIT_GAS; lia|].
  cbv zeta in Hc, Hwf. rewrite Hn in Hc.
  change (wrap32 4294967295) with UINT32_MAX in Hc.
  split; [done|].
  set (s := run _ _ _) in *.
  destruct (submit_succeeds 0%N 7%N (mkExternal Uint8 1) s 11 Hwf eq_refl) as (s' & Hrun & H).
  { pose proof (submit_cost_bound (getEncryptedSum s 7)). unfold SUBMIT_GAS in *. lia. }
  exists s'. split; [done|].
  rewrite (submitted_count _ _ _ _ _ H), Hc. reflexivity.
Qed.

(** C8.  Two consecutive committed [getEncryptedAverage] calls on one
    subject return different handles that decrypt to the same value, and the
    first handle still decrypts to it after the second call; each call has
    changed the ACL. *)
Theorem average_repeatable this subject s sender1 sender2 g1 g2 avg1 s1 avg2 s2 :
  wf s ->
  transact (getEncryptedAverage this sender1 subject) s g1 = (Success avg1, s1) ->
  transact (getEncryptedAverage this sender2 subject) s1 g2 = (Success avg2, s2) ->
  cleartext s2 avg2 = cleartext s1 avg1 /\
  is_Some (cleartext s1 avg1) /\
  cleartext s2 avg1 = cleartext s1 avg1 /\
  avg2 <> avg1 /\
  acl s1 <> acl s /\ acl s2 <> acl s1 /\
  _statsBySubject s2 = _statsBySubject s.
Proof.
  intros Hwf Hrun1 Hrun2.
  pose proof (average_call this sender1 subject s g1 Hwf) as H1.
  rewrite Hrun1 in H1. destruct H1 as [_ H1].
  pose proof (wf_averaged _ _ _ _ _ _ Hwf H1) as Hwf1.
  pose proof (average_call this sender2 subject s1 g2 Hwf1) as H2.
  rewrite Hrun2 in H2. destruct H2 as [_ H2].
  destruct (wf_sum _ Hwf subject) as (v & Hv & _).
  pose proof (averaged_sumPlain _ _ _ _ _ _ subject Hwf H1) as Hv1. rewrite Hv in Hv1.
  pose proof (averaged_cleartext _ _ _ _ _ _ _ H1 Hv) as Hc1.
  pose proof (averaged_cleartext _ _ _ _ _ _ _ H2 Hv1) as Hc2.
  assert (Hcnt : getCount s1 subject = getCount s subject).
  { unfold getCount. by rewrite (avg_stats _ _ _ _ _ _ H1). }
  rewrite Hcnt in Hc2.
  pose proof (avg_handle _ _ _ _ _ _ H1) as Hh1. rewrite fresh_add in Hh1.
  pose proof (avg_handle _ _ _ _ _ _ H2) as Hh2. rewrite fresh_add in Hh2.
  pose proof (averaged_counter _ _ _ _ _ _ H1) as Hk1.
  pose proof (averaged_counter _ _ _ _ _ _ H2) as Hk2.
  pose proof (average_handles_range (getEncryptedSum s subject) (getCount s subject)) as Hr1.
  pose proof (average_handles_range (getEncryptedSum s1 subject) (getCount s1 subject)) as Hr2.
  split; [congruence|]. split; [rewrite Hc1; eauto|]. split.
  { unfold cleartext. rewrite (avg_frame _ _ _ _ _ _ H2); [done|]. left. lia. }
  split; [lia|]. split; [|split].
  - intros Heq. assert (Hin : (avg1, this) ∈ acl s).
    { rewrite <- Heq, (avg_acl _ _ _ _ _ _ H1).
      rewrite !elem_of_union, !elem_of_singleton. auto. }
    apply (wf_acl _ Hwf) in Hin. lia.
  - intros Heq. assert (Hin : (avg2, this) ∈ acl s1).
    { rewrite <- Heq, (avg_acl _ _ _ _ _ _ H2).
      rewrite !elem_of_union, !elem_of_singleton. auto. }
    apply (wf_acl _ Hwf1) in Hin. lia.
  - rewrite (avg_stats _ _ _ _ _ _ H2). apply (avg_stats _ _ _ _ _ _ H1).
Qed.

Lemma average_repeatable_witness :
  let s := run 0 [Submit 9 7 (mkExternal Uint8 4) ProofVerifies 11;
                  Submit 9 7 (mkExternal Uint8 3) ProofVerifies 11]%N deployed in
  let r1 := transact (getEncryptedAverage 0 9 7) s 6 in
  let r2 := transact (getEncryptedAverage 0 8 7) r1.2 6 in
  exists avg1 avg2,
    r1.1 = Success avg1 /\ r2.1 = Success avg2 /\
    cleartext r2.2 avg2 = cleartext r1.2 avg1 /\
    cleartext r1.2 avg1 = Some 350.
Proof.
  intros s r1 r2.
  assert (H1 : r1 = (Success 18%N, r1.2)) by (vm_compute; reflexivity).
  assert (H2 : r2 = (Success 21%N, r2.2)) by (vm_compute; reflexivity).
  exists 18%N, 21%N.
  split; [by rewrite H1|]. split; [by rewrite H2|].
  split.
  - exact (proj1 (average_repeatable 0%N 7%N s 9%N 8%N 6 6 18%N r1.2 21%N r2.2
                    (wf_history _ _) H1 H2)).
  - vm_compute. reflexivity.
Defined.

(** C9.  Encrypted 32-bit arithmetic never signals overflow.  With a budget
    that suffices, a verified submission commits and the new sum is
    (old + contribution) mod 2^32, also when old + contribution reaches
    2^32; [getEncryptedAverage] commits and returns
    ((sum * 100) mod 2^32) / count, also when sum * 100 reaches 2^32.  The
    only failures of a submission are a rejected input and an exhausted
    budget, and the only failure of an average is an exhausted budget. *)
Theorem encrypted_arithmetic_wraps this sender subject s v old :
  wf s ->
  sumPlain s subject = Some old ->
  (forall g, (SUBMIT_GAS <= g)%nat ->
     exists s',
       transact (submitEncryptedScore this subject (mkExternal Uint8 v) ProofVerifies) s g
         = (Success tt, s') /\
       cleartext s' (getEncryptedSum s' subject) = Some ((old + clamp v) mod 2 ^ 32) /\
       (2 ^ 32 <= old + clamp v ->
        cleartext s' (getEncryptedSum s' subject) = Some (old + clamp v - 2 ^ 32))) /\
  (forall g, (AVERAGE_GAS <= g)%nat ->
     exists avg s',
       transact (getEncryptedAverage this sender subject) s g = (Success avg, s') /\
       (getCount s subject <> 0 ->
        cleartext s' avg = Some (((old * 100) mod 2 ^ 32) / getCount s subject))) /\
  (forall g cs pf e s',
     transact (submitEncryptedScore this subject cs pf) s g = (Reverted e, s') ->
     (e = InvalidInputProof /\ pf = ProofRejected) \/
     (e = TypeMismatch /\ ext_type cs <> Uint8) \/
     (e = OutOfGas /\ (g < SUBMIT_GAS)%nat)) /\
  (forall g e s',
     transact (getEncryptedAverage this sender subject) s g = (Reverted e, s') ->
     e = OutOfGas /\ (g < AVERAGE_GAS)%nat).
Proof.
  intros Hwf Hold.
  destruct (wf_sum _ Hwf subject) as (old' & Hold' & Hrange).
  rewrite Hold in Hold'. injection Hold' as <-.
  pose proof (clamp_range v) as Hclamp.
  pose proof (submit_cost_bound (getEncryptedSum s subject)) as Hsc.
  pose proof (average_cost_bound (getEncryptedSum s subject) (getCount s subject)) as Hac.
  split; [|split; [|split]].
  - intros g Hg.
    destruct (submit_succeeds this subject (mkExternal Uint8 v) s g Hwf eq_refl)
      as (s' & Hrun & H); [lia|].
    exists s'. split; [done|].
    destruct (submitted_sumPlain _ _ _ _ _ _ H Hold) as [_ Hclear].
    unfold wrap32 in Hclear. cbn [ext_plain] in Hclear. split; [done|].
    intros Hover. rewrite Hclear. f_equal.
    symmetry. apply Z.mod_unique with (q := 1); lia.
  - intros g Hg.
    destruct (average_succeeds this sender subject s g Hwf) as (avg & s' & Hrun & H); [lia|].
    exists avg, s'. split; [done|]. intros Hne.
    rewrite (averaged_cleartext _ _ _ _ _ _ _ H Hold).
    unfold average_of, wrap32, SCALE.
    destruct (Z.eqb_spec (getCount s subject) 0); [done | reflexivity].
  - intros g cs pf e s' Hrun.
    pose proof (submit_call this subject cs pf s g Hwf) as H. rewrite Hrun in H.
    destruct H as [_ H]. destruct pf; [|by left].
    destruct (decide _); [|by right; left].
    right; right. split; [apply H | lia].
  - intros g e s' Hrun.
    pose proof (average_call this sender subject s g Hwf) as H. rewrite Hrun in H.
    split; [apply H | lia].
Qed.

Lemma encrypted_arithmetic_wraps_witness :
  exists s',
    transact (submitEncryptedScore 0 7 (mkExternal Uint8 6) ProofVerifies) deployed 11
      = (Success tt, s') /\
    cleartext s' (getEncryptedSum s' 7) = Some 5.
Proof.
  destruct (encrypted_arithmetic_wraps 0%N 9%N 7%N deployed 6 0 wf_deployed) as (H & _).
  - vm_compute. reflexivity.
  - destruct (H 11%nat) as (s' & Hrun & Hval & _).
    + unfold SUBMIT_GAS. lia.
    + exists s'. split; [exact Hrun | exact Hval].
Defined.

(** The overflowing sum is reachable: after 4294967295 committed submissions
    of the score 1 the sum is 2^32 - 1; a further submission of 5 commits and
    the sum decrypts to 4. *)
Lemma sum_wraps_after_max :
  let call := Submit 1 7 (mkExternal Uint8 1) ProofVerifies 11%nat in
  let s := run 0 (replicate (N.to_nat 4294967295) call) deployed in
  sumPlain s 7 = Some (2 ^ 32 - 1) /\
  exists s',
    transact (submitEncryptedScore 0 7 (mkExternal Uint8 5) ProofVerifies) s 11
      = (Success tt, s') /\
    cleartext s' (getEncryptedSum s' 7) = Some 4.
Proof.
  cbv zeta.
  assert (Hn : Z.of_nat (N.to_nat 4294967295) = 4294967295) by (by rewrite N_nat_Z).
  revert Hn. generalize (N.to_nat 4294967295). intros n Hn.
  destruct (replicate_history 0%N 1%N 7%N 1 11 n) as (_ & _ & Hs & Hwf);
    [unfold SUBMIT_GAS; lia|].
  cbv zeta in Hs, Hwf. rewrite Hn in Hs.
  change (wrap32 (4294967295 * clamp 1)) with (2 ^ 32 - 1) in Hs.
  split; [done|].
  set (s := run _ _ _) in *.
  destruct (submit_succeeds 0%N 7%N (mkExternal Uint8 5) s 11 Hwf eq_refl) as (s' & Hrun & H).
  { pose proof (submit_cost_bound (getEncryptedSum s 7)). unfold SUBMIT_GAS in *. lia. }
  exists s'. split; [done|].
  destruct (submitted_sumPlain _ _ _ _ _ _ H Hs) as [_ Hclear].
  rewrite Hclear. reflexivity.
Qed.

(** ** The client's gate *)

Lemma submit_effects isAddress r w e :
  e ∈ App.submit isAddress r w ->
  App.canSubmit isAddress r = true /\
  (forall contract user v, e = App.Encrypt8 contract user v -> v = App.score r).
Proof.
  unfold App.submit. destruct (App.canSubmit isAddress r) eqn:Hcan; cbn [negb orb].
  - intros Hin. split; [done|]. intros contract user v ->.
    destruct (negb _ || negb _ || negb _); [by apply elem_of_nil in Hin|].
    destruct (App.signer r), (App.address (App.contractMeta r));
      try by apply elem_of_nil in Hin.
    destruct (App.encrypted w) as [[h pr]|err], (App.sent w), (App.mined w);
      repeat (apply elem_of_cons in Hin as [Hin|Hin]; [by simplify_eq|]);
      by apply elem_of_nil in Hin.
  - intros Hin. by apply elem_of_nil in Hin.
Qed.

(** C10.  [canSubmit] holds exactly when the FHEVM instance, the signer,
    the provider and a contract address are present, the score is between 1
    and 5 and the target is an address.  When it does not hold, [submit]
    does nothing: no status change, no encryption, no transaction.  Every
    value [submit] encrypts is the selected score, lies in [1,5] and is left
    unchanged by the contract's clamp. *)
Theorem client_submit_gated (isAddress : string -> bool) (r : App.Render) :
  (App.canSubmit isAddress r = true <->
   is_Some (App.instance r) /\ is_Some (App.signer r) /\ is_Some (App.provider r) /\
   (exists a, App.address (App.contractMeta r) = Some a /\ a <> EmptyString) /\
   1 <= App.score r <= 5 /\
   isAddress (App.target r) = true) /\
  (App.canSubmit isAddress r = false -> forall w, App.submit isAddress r w = []) /\
  (forall w contract user v,
     App.Encrypt8 contract user v ∈ App.submit isAddress r w ->
     v = App.score r /\ 1 <= v <= 5 /\ clamp v = v) /\
  (forall w e,
     e ∈ App.submit isAddress r w -> App.sends e = true ->
     1 <= App.score r <= 5 /\ isAddress (App.target r) = true).
Proof.
  assert (Hiff : App.canSubmit isAddress r = true <->
     is_Some (App.instance r) /\ is_Some (App.signer r) /\ is_Some (App.provider r) /\
     (exists a, App.address (App.contractMeta r) = Some a /\ a <> EmptyString) /\
     1 <= App.score r <= 5 /\
     isAddress (App.target r) = true).
  { unfold App.canSubmit, App.truthy_object, App.truthy_string.
    rewrite !andb_true_iff, Z.leb_le, Z.leb_le.
    destruct (App.instance r), (App.signer r), (App.provider r),
      (App.address (App.contractMeta r)) as [a|];
      try (split; [intros (((((([=] & ?) & ?) & ?) & ?) & ?) & ?)
                  | intros ([? [=]] & _)]; fail);
      try (split; [intros ((((((? & [=]) & ?) & ?) & ?) & ?) & ?)
                  | intros (_ & [? [=]] & _)]; fail);
      try (split; [intros ((((((? & ?) & [=]) & ?) & ?) & ?) & ?)
                  | intros (_ & _ & [? [=]] & _)]; fail);
      try (split; [intros ((((((? & ?) & ?) & [=]) & ?) & ?) & ?)
                  | intros (_ & _ & _ & (? & [=] & _) & _)]; fail).
    rewrite negb_true_iff. split.
    - intros ((((((_ & _) & _) & Ha) & H1) & H5) & Hadr).
      split; [eauto|]. split; [eauto|]. split; [eauto|]. split; [|done].
      exists a. split; [done|]. by apply String.eqb_neq.
    - intros (_ & _ & _ & (a' & [= <-] & Ha) & Hs & Hadr).
      apply String.eqb_neq in Ha. rewrite Ha. repeat split; try done; lia. }
  split; [exact Hiff|]. split; [|split].
  - intros Hcan w. unfold App.submit. by rewrite Hcan.
  - intros w contract user v Hin.
    destruct (submit_effects isAddress r w _ Hin) as [Hcan Hv].
    specialize (Hv _ _ _ eq_refl). subst v.
    apply Hiff in Hcan as (_ & _ & _ & _ & Hs & _).
    split; [done|]. split; [done|]. unfold clamp. lia.
  - intros w e Hin _.
    destruct (submit_effects isAddress r w _ Hin) as [Hcan _].
    apply Hiff in Hcan as (_ & _ & _ & _ & Hs & Hadr). done.
Qed.

Lemma client_submit_gated_witness :
  let isAddress := fun t : string => (String.length t =? 42)%nat in
  let blocked := App.mkRender (Some tt) (Some "0xabc"%string) (Some tt)
                   (App.mkContractMeta (Some "0xdef"%string)) 6 "0x0000000000000000000000000000000000000007" in
  let world := App.mkWorld (inl ("h"%string, "p"%string)) None None in
  App.canSubmit isAddress blocked = false /\ App.submit isAddress blocked world = [].
Proof.
  intros isAddress blocked world.
  assert (Hcan : App.canSubmit isAddress blocked = false) by (vm_compute; reflexivity).
  split; [exact Hcan|].
  exact (proj1 (proj2 (client_submit_gated isAddress blocked)) Hcan world).
Defined.

(** With a score in range the same render encrypts the score and sends it. *)
Example client_submit_sends :
  let isAddress := fun t : string => (String.length t =? 42)%nat in
  let ready := App.mkRender (Some tt) (Some "0xabc"%string) (Some tt)
                 (App.mkContractMeta (Some "0xdef"%string)) 4 "0x0000000000000000000000000000000000000007" in
  let world := App.mkWorld (inl ("h"%string, "p"%string)) None None in
  App.submit isAddress ready world =
    [ App.SetStatus "Encrypting your rating...";
      App.Encrypt8 "0xdef" "0xabc" 4;
      App.SetStatus "Submitting encrypted rating to blockchain...";
      App.SendSubmitEncryptedScore "0xdef" "0x0000000000000000000000000000000000000007" "h" "p";
      App.WaitReceipt;
      App.SetStatus "Rating submitted successfully!" ]%string.
Proof. vm_compute. reflexivity. Qed.

(** * Further properties of the contract *)

(** ** What every call preserves *)

Lemma execute_monotone this s c :
  wf s ->
  let s' := execute this s c in
  (counter s <= counter s')%positive /\
  acl s ⊆ acl s' /\
  (forall h, (h < N.pos (counter s))%N -> ciphertexts s' !! h = ciphertexts s !! h).
Proof.
  intros Hwf s'. unfold s'.
  destruct c as [sender subject cs pf g|sender subject g]; cbn [execute].
  - pose proof (submit_call this subject cs pf s g Hwf) as H.
    destruct (transact _ s g) as [[[]|e] s1]; cbn [snd].
    + destruct H as (_ & _ & _ & H).
      pose proof (submitted_counter _ _ _ _ _ H) as Hc.
      split; [lia|]. split.
      * rewrite (sub_acl _ _ _ _ _ H). apply union_subseteq_r.
      * intros h Hh. apply (sub_frame _ _ _ _ _ H). by left.
    + destruct H as [-> _]. done.
  - pose proof (average_call this sender subject s g Hwf) as H.
    destruct (transact _ s g) as [[avg|e] s1]; cbn [snd].
    + destruct H as [_ H].
      pose proof (averaged_counter _ _ _ _ _ _ H) as Hc.
      split; [lia|]. split.
      * rewrite (avg_acl _ _ _ _ _ _ H).
        etrans; [|apply union_subseteq_r]. apply union_subseteq_r.
      * intros h Hh. apply (avg_frame _ _ _ _ _ _ H). by left.
    + destruct H as [-> _]. done.
Qed.

Lemma run_monotone this calls s :
  wf s ->
  let s' := run this calls s in
  (counter s <= counter s')%positive /\
  acl s ⊆ acl s' /\
  (forall h, (h < N.pos (counter s))%N -> ciphertexts s' !! h = ciphertexts s !! h).
Proof.
  revert s. induction calls as [|c calls IH]; intros s Hwf; [done|].
  change (run this (c :: calls) s) with (run this calls (execute this s c)).
  destruct (execute_monotone this s c Hwf) as (Hc1 & Ha1 & Hf1).
  destruct (IH _ (wf_execute this s c Hwf)) as (Hc2 & Ha2 & Hf2).
  cbv zeta in *. split; [lia|]. split; [by etrans|].
  intros h Hh. rewrite Hf2 by lia. by apply Hf1.
Qed.

(** Induction over the states reachable from deployment. *)
Lemma reachable_ind this (P : State -> Prop) :
  P deployed ->
  (forall s c, wf s -> P s -> P (execute this s c)) ->
  forall calls, P (run this calls deployed).
Proof.
  intros H0 Hstep calls.
  assert (Hgen : forall s, wf s -> P s -> P (run this calls s)).
  { induction calls as [|c calls IH]; intros s Hwf Hs; [done|].
    apply IH; [by apply wf_execute | by apply Hstep]. }
  apply Hgen; [apply wf_deployed | done].
Qed.

Lemma getEncryptedSum_cases this s c subject :
  wf s ->
  getEncryptedSum (execute this s c) subject = getEncryptedSum s subject \/
  (acl (execute this s c) =
     {[ (getEncryptedSum (execute this s c) subject, this) ]} ∪ acl s /\
   (N.pos (counter s) <= getEncryptedSum (execute this s c) subject)%N).
Proof.
  intros Hwf.
  destruct (execute_cases this s c subject Hwf) as [[Hst _]|(sender & cs & g & _ & _ & H)].
  - left. unfold getEncryptedSum. by rewrite !lookup_total_alt, Hst.
  - right. rewrite (submitted_sum_handle _ _ _ _ _ H). split.
    + apply (sub_acl _ _ _ _ _ H).
    + rewrite fresh_add. lia.
Qed.

(** X1.  In every state reachable from deployment the contract itself holds
    an ACL entry on every sum handle it stores: the [allowThis] that ends
    [submitEncryptedScore] is never missing for a stored sum. *)
Theorem contract_keeps_permission this calls subject :
  let s := run this calls deployed in
  FHE.isInitialized (getEncryptedSum s subject) = true ->
  (getEncryptedSum s subject, this) ∈ acl s.
Proof.
  cbv zeta. revert subject.
  apply (reachable_ind this (fun s => forall subject,
    FHE.isInitialized (getEncryptedSum s subject) = true ->
    (getEncryptedSum s subject, this) ∈ acl s)).
  - intros subject. unfold getEncryptedSum. rewrite deployed_stats. discriminate.
  - intros s c Hwf IH subject Hinit.
    destruct (getEncryptedSum_cases this s c subject Hwf) as [Heq|[Hacl _]].
    + rewrite Heq in *. by apply (proj1 (proj2 (execute_monotone this s c Hwf))), IH.
    + rewrite Hacl. apply elem_of_union_l, elem_of_singleton. reflexivity.
Qed.

Lemma contract_keeps_permission_witness :
  let s := run 0 [Submit 9 7 (mkExternal Uint8 4) ProofVerifies 11;
                  Average 8 7 6;
                  Submit 9 7 (mkExternal Uint8 2) ProofVerifies 11]%N deployed in
  (getEncryptedSum s 7, 0%N) ∈ acl s.
Proof.
  intros s.
  apply (contract_keeps_permission 0%N
           [Submit 9 7 (mkExternal Uint8 4) ProofVerifies 11;
            Average 8 7 6;
            Submit 9 7 (mkExternal Uint8 2) ProofVerifies 11]%N 7%N).
  vm_compute. reflexivity.
Defined.

(** X2.  In every state reachable from deployment no account other than
    the contract holds an ACL entry on a stored sum handle: neither
    submitting a score nor asking for an average ever makes a running sum
    decryptable by a caller. *)
Theorem sum_never_shared this calls subject account :
  let s := run this calls deployed in
  (getEncryptedSum s subject, account) ∈ acl s -> account = this.
Proof.
  cbv zeta. intros Hin.
  assert (Hinv : forall h p, (h, p) ∈ acl (run this calls deployed) ->
            p = this \/ forall x, getEncryptedSum (run this calls deployed) x <> h).
  { clear. apply (reachable_ind this (fun s => forall h p, (h, p) ∈ acl s ->
      p = this \/ forall x, getEncryptedSum s x <> h)).
    - intros h p Hin. by apply elem_of_empty in Hin.
    - intros s c Hwf IH h p Hin.
      assert (Hold : (h, p) ∈ acl s ->
                p = this \/ forall x, getEncryptedSum (execute this s c) x <> h).
      { intros Hin0. destruct (IH _ _ Hin0) as [->|Hne]; [by left|]. right. intros x.
        destruct (getEncryptedSum_cases this s c x Hwf) as [->|[_ Hge]]; [done|].
        apply (wf_acl _ Hwf) in Hin0. lia. }
      destruct c as [sender subject cs pf g|sender subject g]; cbn [execute] in *.
      + pose proof (submit_call this subject cs pf s g Hwf) as H.
        destruct (transact _ s g) as [[[]|e] s1]; cbn [snd] in *.
        * destruct H as (_ & _ & _ & H). rewrite (sub_acl _ _ _ _ _ H) in Hin.
          apply elem_of_union in Hin as [Hin|Hin]; [|by apply Hold].
          apply elem_of_singleton in Hin. left. congruence.
        * destruct H as [-> _]. by apply Hold.
      + pose proof (average_call this sender subject s g Hwf) as H.
        destruct (transact _ s g) as [[avg|e] s1]; cbn [snd] in *.
        * destruct H as [_ H]. rewrite (avg_acl _ _ _ _ _ _ H) in Hin.
          pose proof (avg_handle _ _ _ _ _ _ H) as Hh. rewrite fresh_add in Hh.
          apply elem_of_union in Hin as [Hin|Hin].
          { apply elem_of_singleton in Hin. left. congruence. }
          apply elem_of_union in Hin as [Hin|Hin]; [|by apply Hold].
          apply elem_of_singleton in Hin. injection Hin as -> ->. right. intros x.
          unfold getEncryptedSum. rewrite (avg_stats _ _ _ _ _ _ H).
          pose proof (wf_handle _ Hwf x) as Hx. unfold getEncryptedSum in Hx. lia.
        * destruct H as [-> _]. by apply Hold. }
  destruct (Hinv _ _ Hin) as [|Hne]; [done|]. by destruct (Hne subject).
Qed.

Lemma sum_never_shared_witness :
  let s := run 0 [Submit 9 7 (mkExternal Uint8 4) ProofVerifies 11;
                  Average 9 7 6]%N deployed in
  (getEncryptedSum s 7, 0%N) ∈ acl s /\ (getEncryptedSum s 7, 9%N) ∉ acl s.
Proof.
  intros s.
  assert (Hin : (getEncryptedSum s 7, 0%N) ∈ acl s) by (vm_compute; set_solver).
  split; [exact Hin|].
  intros Hin9.
  pose proof (sum_never_shared 0%N
                [Submit 9 7 (mkExternal Uint8 4) ProofVerifies 11; Average 9 7 6]%N
                7%N 9%N Hin9) as Heq.
  discriminate Heq.
Defined.

(** X3.  An average that was granted stays granted and frozen: whatever
    calls follow, the caller's ACL entry on the returned handle is still
    there and the handle still decrypts to the average of the moment of the
    call, later submissions notwithstanding. *)
Theorem granted_average_persists this sender subject s g avg s1 later :
  wf s ->
  transact (getEncryptedAverage this sender subject) s g = (Success avg, s1) ->
  let s2 := run this later s1 in
  (avg, sender) ∈ acl s2 /\
  (avg, this) ∈ acl s2 /\
  cleartext s2 avg = cleartext s1 avg /\
  exists total_clear,
    sumPlain s subject = Some total_clear /\
    cleartext s2 avg = Some (average_of total_clear (getCount s subject)).
Proof.
  intros Hwf Hrun s2.
  pose proof (average_call this sender subject s g Hwf) as H. rewrite Hrun in H.
  destruct H as [_ H].
  pose proof (wf_averaged _ _ _ _ _ _ Hwf H) as Hwf1.
  destruct (run_monotone this later s1 Hwf1) as (_ & Hacl & Hframe). fold s2 in Hacl, Hframe.
  pose proof (avg_handle _ _ _ _ _ _ H) as Hh. rewrite fresh_add in Hh.
  pose proof (averaged_counter _ _ _ _ _ _ H) as Hc.
  pose proof (average_handles_range (getEncryptedSum s subject) (getCount s subject)) as Hk.
  assert (Hclear : cleartext s2 avg = cleartext s1 avg).
  { unfold cleartext. rewrite Hframe by lia. done. }
  split; [|split; [|split; [done|]]].
  - apply Hacl. rewrite (avg_acl _ _ _ _ _ _ H), !elem_of_union, !elem_of_singleton. auto.
  - apply Hacl. rewrite (avg_acl _ _ _ _ _ _ H), !elem_of_union, !elem_of_singleton. auto.
  - destruct (wf_sum _ Hwf subject) as (v & Hv & _). exists v. split; [done|].
    rewrite Hclear. by apply (averaged_cleartext _ _ _ _ _ _ _ H).
Qed.

Lemma granted_average_persists_witness :
  let s := run 0 [Submit 9 7 (mkExternal Uint8 4) ProofVerifies 11]%N deployed in
  let r := transact (getEncryptedAverage 0 8 7) s 6 in
  let s2 := run 0 [Submit 9 7 (mkExternal Uint8 1) ProofVerifies 11]%N r.2 in
  (11%N, 8%N) ∈ acl s2 /\ cleartext s2 11 = Some 400 /\ sumPlain s2 7 = Some 5.
Proof.
  intros s r s2.
  assert (Hr : transact (getEncryptedAverage 0 8 7) s 6 = (Success 11%N, r.2))
    by (vm_compute; reflexivity).
  destruct (granted_average_persists 0%N 8%N 7%N s 6 11%N r.2
              [Submit 9 7 (mkExternal Uint8 1) ProofVerifies 11]%N (wf_history _ _) Hr)
    as (Hin & _ & Hclear & _).
  split; [exact Hin|]. split; [|vm_compute; reflexivity].
  fold s2 in Hclear. rewrite Hclear. vm_compute. reflexivity.
Defined.

(** ** Subjects do not interfere *)

Lemma execute_other this s c other :
  wf s -> targets c <> other ->
  _statsBySubject (execute this s c) !! other = _statsBySubject s !! other /\
  sumPlain (execute this s c) other = sumPlain s other.
Proof.
  intros Hwf Hne.
  destruct (execute_cases this s c other Hwf) as [H|(sender & cs & g & -> & _)]; [done|].
  by destruct Hne.
Qed.

Lemma submit_committed this subject cs pf s g :
  wf s ->
  committed (transact (submitEncryptedScore this subject cs pf) s g).1 = true <->
  pf = ProofVerifies /\ ext_type cs = Uint8 /\
  (submit_cost (getEncryptedSum s subject) <= g)%nat.
Proof.
  intros Hwf.
  pose proof (submit_call this subject cs pf s g Hwf) as H.
  destruct (transact _ s g) as [[[]|e] s']; cbn [fst committed].
  - destruct H as (? & ? & ? & _). done.
  - destruct H as [_ H]. split; [done|].
    intros (-> & Hty & Hg). destruct (decide _); [lia | done].
Qed.

Lemma accepted_other this subject s c c' :
  wf s -> targets c' <> targets c ->
  accepted this subject [c] (execute this s c') = accepted this subject [c] s.
Proof.
  intros Hwf Hne.
  destruct c as [sender target cs pf g|sender target g]; cbn [accepted]; [|done].
  cbn [targets] in Hne.
  destruct (execute_other this s c' target Hwf Hne) as [Hst _].
  assert (Heq : committed (transact (submitEncryptedScore this target cs pf)
                             (execute this s c') g).1 =
                committed (transact (submitEncryptedScore this target cs pf) s g).1).
  { apply Bool.eq_iff_eq_true.
    rewrite !submit_committed by (try apply wf_execute; done).
    unfold getEncryptedSum. by rewrite !lookup_total_alt, Hst. }
  by rewrite Heq.
Qed.

(** X4.  Calls for different subjects do not interfere.  A call for one
    subject, committed or not, leaves the count, the sum handle and the
    cleartext sum of every other subject as they were; and two calls for
    different subjects, made in either order, leave every subject with the
    same count and the same cleartext sum. *)
Theorem subjects_independent this s c1 c2 :
  wf s ->
  targets c1 <> targets c2 ->
  (forall other, other <> targets c1 ->
     getCount (execute this s c1) other = getCount s other /\
     getEncryptedSum (execute this s c1) other = getEncryptedSum s other /\
     sumPlain (execute this s c1) other = sumPlain s other) /\
  (forall subject,
     getCount (run this [c1; c2] s) subject = getCount (run this [c2; c1] s) subject /\
     sumPlain (run this [c1; c2] s) subject = sumPlain (run this [c2; c1] s) subject).
Proof.
  intros Hwf Hne. split.
  - intros other Hother.
    destruct (execute_other this s c1 other Hwf) as [Hst Hs]; [done|].
    unfold getCount, getEncryptedSum. by rewrite !lookup_total_alt, Hst.
  - intros subject.
    destruct (wf_sum _ Hwf subject) as (v0 & Hv0 & _).
    destruct (run_ledger this subject [c1; c2] s v0 Hwf Hv0) as [Hc12 Hs12].
    destruct (run_ledger this subject [c2; c1] s v0 Hwf Hv0) as [Hc21 Hs21].
    rewrite Hc12, Hs12, Hc21, Hs21.
    rewrite (accepted_cons this subject c1 [c2]), (accepted_cons this subject c2 [c1]).
    rewrite (accepted_other this subject s c2 c1 Hwf) by done.
    rewrite (accepted_other this subject s c1 c2 Hwf) by done.
    rewrite !length_app, !fmap_app, !total_app.
    split; [f_equal; lia | do 2 f_equal; lia].
Qed.

Lemma subjects_independent_witness :
  let c1 := Submit 9 7 (mkExternal Uint8 4) ProofVerifies 11%nat in
  let c2 := Submit 9 8 (mkExternal Uint8 2) ProofVerifies 11%nat in
  getCount (run 0 [c1; c2] deployed) 7 = getCount (run 0 [c2; c1] deployed) 7 /\
  getEncryptedSum (run 0 [c1; c2] deployed) 7 <> getEncryptedSum (run 0 [c2; c1] deployed) 7.
Proof.
  intros c1 c2. split.
  - refine (proj1 (proj2 (subjects_independent 0%N deployed c1 c2 wf_deployed _) 7%N)).
    discriminate.
  - vm_compute. discriminate.
Defined.

(** ** Averages are ratings *)

(** X5.  While fewer than 8589935 submissions have been committed for a
    subject (so that sum * 100 fits in 32 bits), the stored sum lies between
    count and 5 * count, and a non-empty subject's average decrypts to a value
    between 100 and 500: a displayed rating is never below 1.00 nor above
    5.00, whatever raw scores were submitted. *)
Theorem average_in_range this calls subject sender g :
  let s := run this calls deployed in
  let n := Z.of_nat (length (accepted this subject calls deployed)) in
  0 < n -> 500 * n < 2 ^ 32 ->
  (AVERAGE_GAS <= g)%nat ->
  exists total_clear avg s' q,
    getCount s subject = n /\
    sumPlain s subject = Some total_clear /\
    n <= total_clear <= 5 * n /\
    transact (getEncryptedAverage this sender subject) s g = (Success avg, s') /\
    cleartext s' avg = Some q /\
    100 <= q <= 500.
Proof.
  intros s n Hpos Hsmall Hg.
  pose proof (wf_history this calls) as Hwf. fold s in Hwf.
  destruct (run_ledger this subject calls deployed 0 wf_deployed) as [Hc Hs].
  { by apply fresh_subject. }
  fold s n in Hc, Hs.
  pose proof (total_clamp_bound (accepted this subject calls deployed)) as Hb.
  fold n in Hb.
  set (t := total (clamp <$> accepted this subject calls deployed)) in *.
  assert (Hc0 : getCount deployed subject = 0).
  { unfold getCount. by rewrite deployed_stats. }
  rewrite Hc0, Z.add_0_l in Hc. rewrite Z.add_0_l in Hs.
  rewrite wrap32_small in Hc by lia. rewrite wrap32_small in Hs by lia.
  destruct (average_succeeds this sender subject s g Hwf) as (avg & s' & Hrun & Hav).
  { pose proof (average_cost_bound (getEncryptedSum s subject) (getCount s subject)). lia. }
  exists t, avg, s', (t * 100 / n).
  split; [done|]. split; [done|]. split; [done|]. split; [done|]. split.
  - rewrite (averaged_cleartext _ _ _ _ _ _ _ Hav Hs), Hc.
    unfold average_of, SCALE. destruct (Z.eqb_spec n 0); [lia|].
    by rewrite wrap32_small by lia.
  - split.
    + apply Z.div_le_lower_bound; lia.
    + apply Z.div_le_upper_bound; lia.
Qed.

Lemma average_in_range_witness :
  let calls := [Submit 9 7 (mkExternal Uint8 0) ProofVerifies 11;
                Submit 8 7 (mkExternal Uint8 255) ProofVerifies 11;
                Submit 8 7 (mkExternal Uint8 2) ProofVerifies 11]%N in
  exists avg s' q,
    transact (getEncryptedAverage 0 9 7) (run 0 calls deployed) 6 = (Success avg, s') /\
    cleartext s' avg = Some q /\ 100 <= q <= 500.
Proof.
  intros calls.
  destruct (average_in_range 0%N calls 7%N 9%N 6)
    as (t & avg & s' & q & _ & _ & _ & Hrun & Hq & Hrange).
  - vm_compute. reflexivity.
  - vm_compute. reflexivity.
  - unfold AVERAGE_GAS. lia.
  - exists avg, s', q. split; [exact Hrun|]. split; [exact Hq | exact Hrange].
Defined.

(** ** Reading a subject that has no rating *)

Lemma run_unrated this calls s subject :
  wf s -> _statsBySubject s !! subject = None ->
  accepted this subject calls s = [] ->
  _statsBySubject (run this calls s) !! subject = None.
Proof.
  revert s. induction calls as [|c calls IH]; intros s Hwf Hnone Hacc; [done|].
  change (run this (c :: calls) s) with (run this calls (execute this s c)).
  rewrite accepted_cons in Hacc. apply app_eq_nil in Hacc as [Hc Hrest].
  apply IH; [by apply wf_execute | | done].
  destruct (execute_cases this s c subject Hwf) as [[-> _]|(sender & cs & g & -> & Hrun & _)];
    [done|].
  cbn [accepted] in Hc. rewrite Hrun in Hc. cbn [fst committed] in Hc.
  rewrite bool_decide_eq_true_2 in Hc by done. discriminate Hc.
Qed.

(** X6.  The two read-only views tell whether a subject has ratings:
    [getEncryptedSum] returns the zero handle exactly when no submission for
    the subject was ever committed, and [getCount] is then 0.  Submissions
    that failed, submissions for other subjects and averages do not create
    the record. *)
Theorem views_of_unrated_subject this calls subject :
  let s := run this calls deployed in
  (getEncryptedSum s subject = 0%N <-> accepted this subject calls deployed = []) /\
  (accepted this subject calls deployed = [] ->
   getCount s subject = 0 /\ _statsBySubject s !! subject = None).
Proof.
  intros s. split; [split|].
  - intros Hzero.
    destruct (accepted this subject calls deployed) as [|x l] eqn:Hacc; [done|].
    pose proof (run_initialised this subject calls deployed wf_deployed) as Hinit.
    rewrite Hacc in Hinit. fold s in Hinit. rewrite Hzero in Hinit.
    discriminate Hinit. by right.
  - intros Hacc.
    pose proof (run_unrated this calls deployed subject wf_deployed eq_refl Hacc) as Hnone.
    fold s in Hnone. by destruct (fresh_subject s subject Hnone) as (_ & ? & _).
  - intros Hacc.
    pose proof (run_unrated this calls deployed subject wf_deployed eq_refl Hacc) as Hnone.
    fold s in Hnone. by destruct (fresh_subject s subject Hnone) as (? & _ & _).
Qed.

Lemma views_of_unrated_subject_witness :
  let calls := [Submit 9 7 (mkExternal Uint8 4) ProofRejected 11;
                Submit 9 7 (mkExternal Uint8 4) ProofVerifies 3;
                Submit 9 8 (mkExternal Uint8 4) ProofVerifies 11;
                Average 9 7 6]%N in
  getCount (run 0 calls deployed) 7 = 0 /\ getCount (run 0 calls deployed) 8 = 1.
Proof.
  intros calls. split.
  - refine (proj1 (proj2 (views_of_unrated_subject 0%N calls 7%N) _)).
    vm_compute. reflexivity.
  - vm_compute. reflexivity.
Defined.

(** * The ABI generator *)

Lemma String_of_number_inj a b : String_of_number a = String_of_number b -> a = b.
Proof.
  unfold String_of_number. intros H.
  apply (f_equal NilEmpty.uint_of_string) in H. rewrite !NilEmpty.usu in H.
  injection H as H. apply (f_equal N.of_uint) in H.
  by rewrite !DecimalN.Unsigned.of_to in H.
Qed.


Section Scanning.

Import GenAbi.
Variable read : string -> File.

Lemma otherStep_scanned st e :
  ~ scanned e -> otherStep read st e = st.
Proof.
  unfold scanned, otherStep. intros Hn.
  destruct (isDirectory e); [|done]. case_bool_decide; [done|]. destruct Hn. done.
Qed.

Lemma otherStep_readable st e d :
  scanned e -> read (name e) = Readable d ->
  otherStep read st e =
    (match st.1 !! chainIdStr_of 31337 d with
     | None => <[chainIdStr_of 31337 d := entry_of d (chainIdStr_of 31337 d) (name e)]> st.1
     | Some _ => st.1
     end, remember st (Deployment.abi d) (chainIdStr_of 31337 d)).
Proof.
  unfold otherStep. intros [-> Hn] ->. by rewrite bool_decide_eq_false_2.
Qed.

Lemma otherStep_unreadable st e :
  (forall d, read (name e) <> Readable d) -> otherStep read st e = st.
Proof.
  unfold otherStep. intros Hn. destruct (_ && _); [|done].
  destruct (read (name e)) as [| |d]; [done | done | by destruct (Hn d)].
Qed.

(** The first deployment, once found, is kept. *)
Lemma priority_first_kept nets st f :
  st.2 = Some f -> (foldl (priorityStep read) st nets).2 = Some f.
Proof.
  revert st. induction nets as [|net nets IH]; intros st Hf; [done|].
  cbn [foldl]. apply IH. unfold priorityStep, remember.
  destruct (read net); cbn [snd]; by rewrite ?Hf.
Qed.

Lemma other_first_kept es st f :
  st.2 = Some f -> (foldl (otherStep read) st es).2 = Some f.
Proof.
  revert st. induction es as [|e es IH]; intros st Hf; [done|].
  cbn [foldl]. apply IH. unfold otherStep, remember.
  destruct (_ && _); [|done]. destruct (read (name e)); cbn [snd]; by rewrite ?Hf.
Qed.

Lemma priority_first_none nets st :
  (foldl (priorityStep read) st nets).2 = None <->
  st.2 = None /\ Forall (fun net => forall d, read net <> Readable d) nets.
Proof.
  revert st. induction nets as [|net nets IH]; intros st; cbn [foldl].
  - split; [intros H; split; [done | constructor] | by intros [H _]].
  - rewrite IH, Forall_cons. unfold priorityStep, remember.
    destruct (read net) as [| |d] eqn:Hr; cbn [snd].
    + split; [intros [? ?]; repeat split; done | intros (? & _ & ?); done].
    + split; [intros [? ?]; repeat split; done | intros (? & _ & ?); done].
    + split.
      * intros [H _]. by destruct (st.2).
      * intros (_ & Hn & _). by destruct (Hn d).
Qed.

Lemma other_first_none es st :
  (foldl (otherStep read) st es).2 = None <->
  st.2 = None /\
  Forall (fun e => scanned e -> forall d, read (name e) <> Readable d) es.
Proof.
  revert st. induction es as [|e es IH]; intros st; cbn [foldl].
  - split; [intros H; split; [done | constructor] | by intros [H _]].
  - rewrite IH, Forall_cons.
    destruct (decide (scanned e)) as [Hs|Hs].
    + destruct (read (name e)) as [| |d] eqn:Hr.
      * rewrite otherStep_unreadable by (intros d; congruence).
        split; [intros [? ?]; repeat split; try done; intros _ d; congruence
               | intros (? & _ & ?); done].
      * rewrite otherStep_unreadable by (intros d; congruence).
        split; [intros [? ?]; repeat split; try done; intros _ d; congruence
               | intros (? & _ & ?); done].
      * rewrite (otherStep_readable st e d Hs Hr). unfold remember. cbn [snd]. split.
        -- intros [H _]. by destruct (st.2).
        -- intros (_ & Hn & _). by destruct (Hn Hs d).
    + rewrite otherStep_scanned by done.
      split; [intros [? ?]; repeat split; done | intros (? & _ & ?); done].
Qed.

(** Keys written by the first loop. *)
Lemma priority_lookup_none nets st k :
  st.1 !! k = None ->
  Forall (fun net => forall d, read net = Readable d -> chainIdStr_of (fallback_of net) d <> k)
    nets ->
  (foldl (priorityStep read) st nets).1 !! k = None.
Proof.
  revert st. induction nets as [|net nets IH]; intros st Hk Hall; [done|].
  apply Forall_cons in Hall as [Hnet Hall]. cbn [foldl]. apply IH; [|done].
  unfold priorityStep. destruct (read net) as [| |d]; [done | done |].
  cbn [fst]. rewrite lookup_insert_ne; [done|]. by apply Hnet.
Qed.

Lemma priority_lookup_kept nets st k x :
  st.1 !! k = Some x ->
  Forall (fun net => forall d, read net = Readable d -> chainIdStr_of (fallback_of net) d <> k)
    nets ->
  (foldl (priorityStep read) st nets).1 !! k = Some x.
Proof.
  revert st. induction nets as [|net nets IH]; intros st Hk Hall; [done|].
  apply Forall_cons in Hall as [Hnet Hall]. cbn [foldl]. apply IH; [|done].
  unfold priorityStep. destruct (read net) as [| |d]; [done | done |].
  cbn [fst]. rewrite lookup_insert_ne; [done|]. by apply Hnet.
Qed.

(** The second loop never replaces an entry. *)
Lemma other_lookup_kept es st k x :
  st.1 !! k = Some x -> (foldl (otherStep read) st es).1 !! k = Some x.
Proof.
  revert st. induction es as [|e es IH]; intros st Hk; [done|].
  cbn [foldl]. apply IH. unfold otherStep.
  destruct (_ && _); [|done]. destruct (read (name e)) as [| |d]; [done | done |].
  cbn [fst]. destruct (st.1 !! chainIdStr_of 31337 d) eqn:Hd; [done|].
  rewrite lookup_insert_ne; [done|]. congruence.
Qed.

Lemma other_lookup_none es st k :
  st.1 !! k = None ->
  Forall (fun e => scanned e -> forall d, read (name e) = Readable d ->
                   chainIdStr_of 31337 d <> k) es ->
  (foldl (otherStep read) st es).1 !! k = None.
Proof.
  revert st. induction es as [|e es IH]; intros st Hk Hall; [done|].
  apply Forall_cons in Hall as [He Hall]. cbn [foldl]. apply IH; [|done].
  destruct (decide (scanned e)) as [Hs|Hs]; [|by rewrite otherStep_scanned].
  destruct (read (name e)) as [| |d] eqn:Hr;
    [by rewrite otherStep_unreadable by (intros d; congruence)
    |by rewrite otherStep_unreadable by (intros d; congruence)|].
  rewrite (otherStep_readable st e d Hs Hr). cbn [fst].
  destruct (st.1 !! chainIdStr_of 31337 d) eqn:Hd; [done|].
  rewrite lookup_insert_ne; [done|]. by apply He.
Qed.

Lemma priority_sourced nets st :
  (forall net, net ∈ nets -> net ∈ networkPriority) ->
  (forall k x, st.1 !! k = Some x -> sourced read k x) ->
  forall k x, (foldl (priorityStep read) st nets).1 !! k = Some x -> sourced read k x.
Proof.
  revert st. induction nets as [|net nets IH]; intros st Hin Hst; [done|].
  cbn [foldl]. apply IH; [intros n Hn; apply Hin; by right|].
  intros k x. unfold priorityStep.
  destruct (read net) as [| |d] eqn:Hr; [apply Hst | apply Hst |].
  cbn [fst]. destruct (decide (chainIdStr_of (fallback_of net) d = k)) as [<-|Hne].
  - rewrite lookup_insert_eq. intros [= <-]. exists net, d.
    split; [done|]. split; [done|]. left. split; [apply Hin; by left | done].
  - rewrite lookup_insert_ne by done. apply Hst.
Qed.

Lemma other_sourced es st :
  (forall k x, st.1 !! k = Some x -> sourced read k x) ->
  forall k x, (foldl (otherStep read) st es).1 !! k = Some x -> sourced read k x.
Proof.
  revert st. induction es as [|e es IH]; intros st Hst; [done|].
  cbn [foldl]. apply IH. intros k x.
  destruct (decide (scanned e)) as [Hs|Hs]; [|rewrite otherStep_scanned by done; apply Hst].
  destruct (read (name e)) as [| |d] eqn:Hr;
    [rewrite otherStep_unreadable by (intros d; congruence); apply Hst
    |rewrite otherStep_unreadable by (intros d; congruence); apply Hst|].
  rewrite (otherStep_readable st e d Hs Hr). cbn [fst].
  destruct (st.1 !! chainIdStr_of 31337 d) eqn:Hd; [apply Hst|].
  destruct (decide (chainIdStr_of 31337 d = k)) as [<-|Hne].
  - rewrite lookup_insert_eq. intros [= <-]. exists (name e), d.
    split; [done|]. split; [done|]. right. split; [apply Hs | done].
  - rewrite lookup_insert_ne by done. apply Hst.
Qed.

Lemma scan_sourced entries k x :
  (scanDeployments read entries).1 !! k = Some x -> sourced read k x.
Proof.
  unfold scanDeployments.
  assert (Hp : forall k x,
    (foldl (priorityStep read) (∅, None) networkPriority).1 !! k = Some x -> sourced read k x).
  { apply priority_sourced; [done|]. intros k' x' H. cbn [fst] in H.
    by rewrite lookup_empty in H. }
  destruct entries as [es|]; [|apply Hp]. by apply other_sourced.
Qed.

End Scanning.

Lemma foldl_priority_app read st l1 l2 :
  foldl (GenAbi.priorityStep read) st (l1 ++ l2) =
  foldl (GenAbi.priorityStep read) (foldl (GenAbi.priorityStep read) st l1) l2.
Proof. apply foldl_app. Qed.

(** X7.  The script skips generation exactly when it found nothing: no
    priority network and no other listed directory has a [RatingNet.json]
    that can be read and parsed.  An unreadable file or a failing directory
    listing alone never stops it. *)
Theorem genabi_skips_iff_nothing_found read entries :
  GenAbi.main read entries = None <->
  (forall net, net ∈ GenAbi.networkPriority -> forall d, read net <> GenAbi.Readable d) /\
  (forall es e, entries = Some es -> e ∈ es -> GenAbi.scanned e ->
     forall d, read (GenAbi.name e) <> GenAbi.Readable d).
Proof.
  unfold GenAbi.main.
  destruct (GenAbi.scanDeployments read entries) as [m f] eqn:Hscan.
  assert (Hf : f = (GenAbi.scanDeployments read entries).2) by (by rewrite Hscan).
  assert (Hiff : f = None <->
    (forall net, net ∈ GenAbi.networkPriority -> forall d, read net <> GenAbi.Readable d) /\
    (forall es e, entries = Some es -> e ∈ es -> GenAbi.scanned e ->
       forall d, read (GenAbi.name e) <> GenAbi.Readable d)).
  { rewrite Hf. unfold GenAbi.scanDeployments. destruct entries as [es|].
    - rewrite other_first_none, priority_first_none, !Forall_forall. cbn [snd]. split.
      + intros [[_ Hp] Ho]. split; [done|]. intros es' e [= <-]. apply Ho.
      + intros [Hp Ho]. split; [done|]. intros e. by apply Ho.
    - rewrite priority_first_none, Forall_forall. cbn [snd]. split.
      + intros [_ Hp]. split; [done|]. intros es e [=].
      + intros [Hp _]. done. }
  destruct f; [|tauto]. split; [done|]. intros H. by apply Hiff in H.
Qed.

Lemma genabi_skips_iff_nothing_found_witness :
  GenAbi.main (fun net => if String.eqb net "sepolia" then GenAbi.Unreadable else GenAbi.Missing)
    (Some [GenAbi.mkDirent "notes" true; GenAbi.mkDirent "README.md" false]) = None.
Proof.
  apply genabi_skips_iff_nothing_found. split.
  - intros net _ d. by destruct (String.eqb net "sepolia").
  - intros es e _ _ _ d. by destruct (String.eqb (GenAbi.name e) "sepolia").
Defined.

(** X8.  The ABI that is written is the one of the first priority network,
    in the order sepolia, hardhat, localhost, anvil, that has a readable
    deployment, whatever the other directories hold; when no priority network
    has one, it is the ABI of the first listed directory that has. *)
Theorem abi_of_first_deployment read entries :
  (forall pre net post d,
     GenAbi.networkPriority = pre ++ net :: post ->
     (forall n, n ∈ pre -> forall d', read n <> GenAbi.Readable d') ->
     read net = GenAbi.Readable d ->
     exists out,
       GenAbi.main read entries = Some out /\
       GenAbi.RatingNetABI out = GenAbi.Deployment.abi d) /\
  (forall pre e post d,
     (forall n, n ∈ GenAbi.networkPriority -> forall d', read n <> GenAbi.Readable d') ->
     entries = Some (pre ++ e :: post) ->
     (forall e', e' ∈ pre -> GenAbi.scanned e' ->
        forall d', read (GenAbi.name e') <> GenAbi.Readable d') ->
     GenAbi.scanned e ->
     read (GenAbi.name e) = GenAbi.Readable d ->
     exists out,
       GenAbi.main read entries = Some out /\
       GenAbi.RatingNetABI out = GenAbi.Deployment.abi d).
Proof.
  split.
  - intros pre net post d Hsplit Hpre Hread.
    assert (Hp : (foldl (GenAbi.priorityStep read) (∅, None) GenAbi.networkPriority).2 =
                 Some (GenAbi.First.mk (GenAbi.Deployment.abi d)
                         (GenAbi.chainIdStr_of (GenAbi.fallback_of net) d))).
    { rewrite Hsplit, foldl_priority_app. cbn [foldl].
      apply priority_first_kept.
      assert (Hnone : (foldl (GenAbi.priorityStep read) (∅, None) pre).2 = None).
      { apply priority_first_none. split; [done|]. by apply Forall_forall. }
      unfold GenAbi.priorityStep at 1, GenAbi.remember. rewrite Hread. cbn [snd].
      by rewrite Hnone. }
    unfold GenAbi.main, GenAbi.scanDeployments.
    destruct entries as [es|].
    + pose proof (other_first_kept read es _ _ Hp) as Ho.
      destruct (foldl (GenAbi.otherStep read) _ es) as [m f]. cbn [snd] in Ho. subst f.
      eexists. split; [reflexivity | done].
    + destruct (foldl (GenAbi.priorityStep read) _ _) as [m f]. cbn [snd] in Hp. subst f.
      eexists. split; [reflexivity | done].
  - intros pre e post d Hprio -> Hpre Hs Hread.
    unfold GenAbi.main, GenAbi.scanDeployments.
    set (st0 := foldl (GenAbi.priorityStep read) (∅, None) GenAbi.networkPriority).
    assert (H0 : st0.2 = None).
    { apply priority_first_none. split; [done|]. by apply Forall_forall. }
    rewrite foldl_app. cbn [foldl].
    set (st1 := foldl (GenAbi.otherStep read) st0 pre).
    assert (H1 : st1.2 = None).
    { apply other_first_none. split; [done|]. by apply Forall_forall. }
    assert (Ho : (foldl (GenAbi.otherStep read) (GenAbi.otherStep read st1 e) post).2 =
                 Some (GenAbi.First.mk (GenAbi.Deployment.abi d)
                         (GenAbi.chainIdStr_of 31337 d))).
    { apply other_first_kept. rewrite (otherStep_readable read st1 e d Hs Hread).
      unfold GenAbi.remember. cbn [snd]. by rewrite H1. }
    destruct (foldl (GenAbi.otherStep read) _ post) as [m f]. cbn [snd] in Ho. subst f.
    eexists. split; [reflexivity | done].
Qed.

(** X9.  Which address is recorded for a chain id.  Among the priority
    networks the last one, in priority order, whose deployment carries that
    chain id wins, and no other directory can replace it.  A directory outside
    the priority list is recorded only for a chain id that no priority network
    and no earlier listed directory has taken. *)
Theorem address_precedence read entries :
  (forall pre net post d,
     GenAbi.networkPriority = pre ++ net :: post ->
     read net = GenAbi.Readable d ->
     (forall n d', n ∈ post -> read n = GenAbi.Readable d' ->
        GenAbi.chainIdStr_of (GenAbi.fallback_of n) d' <>
        GenAbi.chainIdStr_of (GenAbi.fallback_of net) d) ->
     (GenAbi.scanDeployments read entries).1 !! GenAbi.chainIdStr_of (GenAbi.fallback_of net) d =
       Some (GenAbi.entry_of d (GenAbi.chainIdStr_of (GenAbi.fallback_of net) d) net)) /\
  (forall pre e post d,
     entries = Some (pre ++ e :: post) ->
     GenAbi.scanned e ->
     read (GenAbi.name e) = GenAbi.Readable d ->
     (forall n d', n ∈ GenAbi.networkPriority -> read n = GenAbi.Readable d' ->
        GenAbi.chainIdStr_of (GenAbi.fallback_of n) d' <> GenAbi.chainIdStr_of 31337 d) ->
     (forall e' d', e' ∈ pre -> GenAbi.scanned e' -> read (GenAbi.name e') = GenAbi.Readable d' ->
        GenAbi.chainIdStr_of 31337 d' <> GenAbi.chainIdStr_of 31337 d) ->
     (GenAbi.scanDeployments read entries).1 !! GenAbi.chainIdStr_of 31337 d =
       Some (GenAbi.entry_of d (GenAbi.chainIdStr_of 31337 d) (GenAbi.name e))).
Proof.
  split.
  - intros pre net post d Hsplit Hread Hpost.
    assert (Hp : (foldl (GenAbi.priorityStep read) (∅, None) GenAbi.networkPriority).1
                   !! GenAbi.chainIdStr_of (GenAbi.fallback_of net) d =
                 Some (GenAbi.entry_of d (GenAbi.chainIdStr_of (GenAbi.fallback_of net) d) net)).
    { rewrite Hsplit, foldl_priority_app. cbn [foldl].
      apply priority_lookup_kept.
      - unfold GenAbi.priorityStep at 1. rewrite Hread. cbn [fst].
        apply lookup_insert_eq.
      - apply Forall_forall. intros n Hn d' Hd'. by apply (Hpost n d'). }
    unfold GenAbi.scanDeployments. destruct entries as [es|]; [|done].
    by apply other_lookup_kept.
  - intros pre e post d -> Hs Hread Hprio Hpre.
    unfold GenAbi.scanDeployments.
    set (st0 := foldl (GenAbi.priorityStep read) (∅, None) GenAbi.networkPriority).
    assert (H0 : st0.1 !! GenAbi.chainIdStr_of 31337 d = None).
    { apply priority_lookup_none; [apply lookup_empty|].
      apply Forall_forall. intros n Hn d' Hd'. by apply (Hprio n d'). }
    rewrite foldl_app. cbn [foldl].
    set (st1 := foldl (GenAbi.otherStep read) st0 pre).
    assert (H1 : st1.1 !! GenAbi.chainIdStr_of 31337 d = None).
    { apply other_lookup_none; [done|].
      apply Forall_forall. intros e' He' Hs' d' Hd'. by apply (Hpre e' d'). }
    apply other_lookup_kept.
    rewrite (otherStep_readable read st1 e d Hs Hread). cbn [fst].
    rewrite H1. apply lookup_insert_eq.
Qed.

Lemma abi_of_first_deployment_witness :
  let read := fun net : string =>
    if String.eqb net "hardhat"
    then GenAbi.Readable (GenAbi.Deployment.mk (Some "0xH") (Some "abiH") None)
    else if String.eqb net "anvil"
    then GenAbi.Readable (GenAbi.Deployment.mk (Some "0xA") (Some "abiA") None)
    else if String.eqb net "sepolia" then GenAbi.Unreadable
    else GenAbi.Missing in
  exists out,
    GenAbi.main read None = Some out /\ GenAbi.RatingNetABI out = Some "abiH"%string.
Proof.
  intros read.
  destruct (abi_of_first_deployment read None) as [H _].
  apply (H ["sepolia"%string] "hardhat"%string ["localhost"; "anvil"]%string
           (GenAbi.Deployment.mk (Some "0xH") (Some "abiH") None)%string).
  - reflexivity.
  - intros n Hn d'. apply elem_of_cons in Hn as [->|Hn]; [discriminate|].
    by apply elem_of_nil in Hn.
  - reflexivity.
Defined.

Lemma address_precedence_witness :
  let read := fun net : string =>
    if String.eqb net "hardhat"
    then GenAbi.Readable (GenAbi.Deployment.mk (Some "0xH") (Some "abiH") None)
    else if String.eqb net "anvil"
    then GenAbi.Readable (GenAbi.Deployment.mk (Some "0xA") (Some "abiA") None)
    else GenAbi.Missing in
  GenAbi.Entry.address <$>
    (GenAbi.scanDeployments read
       (Some [GenAbi.mkDirent "hardhat" true; GenAbi.mkDirent "fork" true])).1 !! "31337"%string
  = Some (Some "0xA"%string).
Proof.
  intros read.
  destruct (address_precedence read
              (Some [GenAbi.mkDirent "hardhat" true; GenAbi.mkDirent "fork" true])) as [H _].
  specialize (H ["sepolia"; "hardhat"; "localhost"]%string "anvil"%string []
                (GenAbi.Deployment.mk (Some "0xA") (Some "abiA") None)%string
                eq_refl eq_refl).
  change (GenAbi.chainIdStr_of (GenAbi.fallback_of "anvil")
            (GenAbi.Deployment.mk (Some "0xA") (Some "abiA") None)%string)
    with "31337"%string in H.
  rewrite H.
  - reflexivity.
  - intros n d' Hn. by apply elem_of_nil in Hn.
Defined.



(** * The web client and its contract address *)

Lemma getContractMeta_address table chainId a :
  App.address (AppRead.getContractMeta table chainId) = Some a <->
  exists n e,
    chainId = Some n /\ n <> 0%N /\
    table !! String_of_number n = Some e /\
    GenAbi.Entry.address e = Some a /\
    a <> EmptyString /\ a <> AppRead.ZeroAddress.
Proof.
  unfold AppRead.getContractMeta. cbn [App.address]. split.
  - destruct chainId as [n|]; [|done].
    destruct (N.eqb_spec n 0) as [|Hn]; [done|].
    destruct (table !! String_of_number n) as [e|] eqn:He; [|done].
    destruct (App.truthy_string _) eqn:Ht; [|done].
    case_bool_decide as Hz; [done|]. cbn [negb andb]. intros Ha.
    exists n, e. split; [done|]. split; [done|]. split; [done|]. split; [done|].
    rewrite Ha in Ht, Hz. unfold App.truthy_string in Ht.
    apply negb_true_iff, String.eqb_neq in Ht. split; [done | congruence].
  - intros (n & e & -> & Hn & He & Ha & Hne & Hz).
    apply N.eqb_neq in Hn. rewrite Hn, He, Ha. unfold App.truthy_string.
    apply String.eqb_neq in Hne. rewrite Hne. cbn [negb andb].
    rewrite bool_decide_eq_false_2 by congruence. done.
Qed.

Lemma submit_sends_to isAddress r w contract subject h p :
  App.SendSubmitEncryptedScore contract subject h p ∈ App.submit isAddress r w ->
  App.address (App.contractMeta r) = Some contract /\
  subject = App.target r /\
  App.encrypted w = inl (h, p).
Proof.
  unfold App.submit. destruct (negb _ || _ || _ || _); [by intros ?%elem_of_nil|].
  destruct (App.signer r), (App.address (App.contractMeta r));
    try by intros ?%elem_of_nil.
  intros Hin.
  destruct (App.encrypted w) as [[h' p']|err], (App.sent w), (App.mined w);
    repeat (apply elem_of_cons in Hin as [Hin|Hin]; [by simplify_eq|]);
    by apply elem_of_nil in Hin.
Qed.

(** X11.  With the contract address taken from [getContractMeta], every
    transaction [submit] sends goes to the address registered for the
    connected chain, which is neither empty nor the zero address, and is about
    the target shown, a valid address.  Without a chain id, on chain id 0 or
    on a chain with no registered entry, [submit] does nothing. *)
Theorem submit_uses_registered_contract isAddress table chainId r :
  App.contractMeta r = AppRead.getContractMeta table chainId ->
  (forall w contract subject h p,
     App.SendSubmitEncryptedScore contract subject h p ∈ App.submit isAddress r w ->
     contract <> AppRead.ZeroAddress /\ contract <> EmptyString /\
     subject = App.target r /\ isAddress subject = true /\
     exists n e,
       chainId = Some n /\ n <> 0%N /\
       table !! String_of_number n = Some e /\
       GenAbi.Entry.address e = Some contract) /\
  ((chainId = None \/ chainId = Some 0%N \/
    exists n, chainId = Some n /\ table !! String_of_number n = None) ->
   forall w, App.submit isAddress r w = []).
Proof.
  intros Hmeta. split.
  - intros w contract subject h p Hin.
    destruct (submit_effects isAddress r w _ Hin) as [Hcan _].
    destruct (submit_sends_to isAddress r w _ _ _ _ Hin) as (Haddr & -> & _).
    rewrite Hmeta in Haddr.
    apply getContractMeta_address in Haddr as (n & e & Hc & Hn & He & Ha & Hne & Hz).
    unfold App.canSubmit in Hcan. apply andb_true_iff in Hcan as [_ Hadr].
    split; [done|]. split; [done|]. split; [done|]. split; [done|].
    by exists n, e.
  - intros Hnone w.
    assert (Haddr : App.address (App.contractMeta r) = None).
    { rewrite Hmeta.
      destruct (App.address (AppRead.getContractMeta table chainId)) as [a|] eqn:Ha; [|done].
      apply getContractMeta_address in Ha as (n & e & Hc & Hn & He & _).
      destruct Hnone as [->|[->|(n' & -> & Hn')]]; [done | by simplify_eq | by simplify_eq]. }
    unfold App.submit, App.canSubmit. rewrite Haddr. cbn [App.truthy_string].
    by rewrite !andb_false_r.
Qed.

Lemma submit_uses_registered_contract_witness :
  let isAddress := fun t : string => (String.length t =? 42)%nat in
  let table : gmap string GenAbi.Entry.t :=
    {[ "31337"%string :=
         GenAbi.Entry.mk (Some "0x5FbDB2315678afecb367f032d93F642f64180aa3"%string)
           (Some 31337%N) "localhost"%string ]} in
  let r := App.mkRender (Some tt) (Some "0xabc"%string) (Some tt)
             (AppRead.getContractMeta table (Some 0%N)) 4
             "0x0000000000000000000000000000000000000007" in
  App.submit isAddress r (App.mkWorld (inl ("h"%string, "p"%string)) None None) = [].
Proof.
  intros isAddress table r.
  refine (proj2 (submit_uses_registered_contract isAddress table (Some 0%N) r eq_refl) _ _).
  right. left. reflexivity.
Defined.

(** X12.  End to end: whatever contract address the client obtains for a
    connected chain from the generated [RatingNetAddresses] is the address of
    a deployment file the generator read, recorded for exactly that chain id
    (the file's own, or the fallback of its directory); it is never the zero
    address, and chain id 0 never yields one. *)
Theorem client_address_from_deployment read entries out chain a :
  GenAbi.main read entries = Some out ->
  App.address (AppRead.getContractMeta (GenAbi.RatingNetAddresses out) (Some chain)) = Some a ->
  chain <> 0%N /\ a <> AppRead.ZeroAddress /\
  exists net d,
    read net = GenAbi.Readable d /\
    GenAbi.Deployment.address d = Some a /\
    default (if bool_decide (net ∈ GenAbi.networkPriority)
             then GenAbi.fallback_of net else 31337%N) (GenAbi.Deployment.chainId d) = chain.
Proof.
  intros Hmain Ha.
  apply getContractMeta_address in Ha as (n & e & [= <-] & Hn & He & Haddr & _ & Hz).
  split; [done|]. split; [done|].
  assert (Hscan : (GenAbi.scanDeployments read entries).1 !! String_of_number chain = Some e).
  { unfold GenAbi.main in Hmain.
    destruct (GenAbi.scanDeployments read entries) as [m [f|]]; [|done].
    injection Hmain as <-. done. }
  apply scan_sourced in Hscan as (net & d & Hread & -> & Hsrc).
  exists net, d. split; [done|]. split; [done|].
  destruct Hsrc as [[Hin Hk]|[Hnin Hk]].
  - rewrite bool_decide_eq_true_2 by done. symmetry. by apply String_of_number_inj.
  - rewrite bool_decide_eq_false_2 by done. symmetry. by apply String_of_number_inj.
Qed.

Lemma client_address_from_deployment_witness :
  let read := fun net : string =>
    if String.eqb net "anvil"
    then GenAbi.Readable
           (GenAbi.Deployment.mk (Some "0x5FbDB2315678afecb367f032d93F642f64180aa3")
              (Some "abiA") None)
    else GenAbi.Missing in
  exists out,
    GenAbi.main read None = Some out /\
    App.address (AppRead.getContractMeta (GenAbi.RatingNetAddresses out) (Some 31337%N)) =
      Some "0x5FbDB2315678afecb367f032d93F642f64180aa3"%string /\
    "0x5FbDB2315678afecb367f032d93F642f64180aa3"%string <> AppRead.ZeroAddress.
Proof.
  intros read.
  destruct (GenAbi.main read None) as [out|] eqn:Hmain; [|by vm_compute in Hmain].
  assert (Ha : App.address
                 (AppRead.getContractMeta (GenAbi.RatingNetAddresses out) (Some 31337%N)) =
               Some "0x5FbDB2315678afecb367f032d93F642f64180aa3"%string).
  { vm_compute in Hmain. injection Hmain as <-. vm_compute. reflexivity. }
  exists out. split; [reflexivity|]. split; [exact Ha|].
  exact (proj1 (proj2 (client_address_from_deployment read None out 31337%N _ Hmain Ha))).
Defined.

(** * Reading the average from the client *)

Lemma canGetAvg_true isAddress r :
  AppRead.canGetAvg isAddress r = true ->
  exists i user pr contract,
    App.instance r = Some i /\ App.signer r = Some user /\ App.provider r = Some pr /\
    App.address (App.contractMeta r) = Some contract /\
    App.truthy_string (Some contract) = true /\
    isAddress (App.target r) = true.
Proof.
  unfold AppRead.canGetAvg, App.truthy_object. rewrite !andb_true_iff.
  intros ((((Hi & Hs) & Hp) & Ha) & Hadr).
  destruct (App.instance r) as [i|], (App.signer r) as [user|], (App.provider r) as [pr|],
    (App.address (App.contractMeta r)) as [contract|]; try done.
  by exists i, user, pr, contract.
Qed.

(** X13.  [getAverage] is gated like [submit] but for the score: it does
    nothing unless [canGetAvg] holds, and [canGetAvg] holds whenever
    [canSubmit] does.  A decryption is requested only at the end of one fixed
    sequence: wallet access, the transaction that grants permission, its
    receipt, the static call that returns the handle, and a signature; it is
    requested for that handle and for the registered contract.  The clear
    average is set only by a decryption that succeeded, and a declined
    signature ends the action without any decryption. *)
Theorem getAverage_flow isAddress r w :
  (AppRead.canGetAvg isAddress r = false -> AppRead.getAverage isAddress r w = []) /\
  (App.canSubmit isAddress r = true -> AppRead.canGetAvg isAddress r = true) /\
  (forall h c sig,
     AppRead.UserDecrypt h c sig ∈ AppRead.getAverage isAddress r w ->
     exists user,
       App.signer r = Some user /\
       App.address (App.contractMeta r) = Some c /\
       isAddress (App.target r) = true /\
       AppRead.staticCall w = inl h /\
       AppRead.loadOrSign w = inl (Some sig) /\
       AppRead.getAverage isAddress r w =
         [ AppRead.SetStatus "Preparing to retrieve average rating...";
           AppRead.SetStatus "Requesting wallet access...";
           AppRead.RequestAccounts;
           AppRead.GetAddress;
           AppRead.SetStatus "Granting decryption permission on blockchain...";
           AppRead.SendGetEncryptedAverage c (App.target r);
           AppRead.WaitReceipt;
           AppRead.SetStatus "Retrieving encrypted average...";
           AppRead.StaticCallGetEncryptedAverage c (App.target r);
           AppRead.SetAvgHandle h;
           AppRead.SetStatus "Requesting signature for decryption...";
           AppRead.LoadOrSign [c] user;
           AppRead.SetStatus "Decrypting average rating...";
           AppRead.UserDecrypt h c sig ] ++
         match AppRead.userDecrypt w with
         | inr e => AppRead.failed e
         | inl value =>
             [ AppRead.SetAvgClear value;
               AppRead.SetStatus "Average rating decrypted successfully!" ]
         end) /\
  (forall value,
     AppRead.SetAvgClear value ∈ AppRead.getAverage isAddress r w ->
     AppRead.userDecrypt w = inl value /\
     exists h c sig, AppRead.UserDecrypt h c sig ∈ AppRead.getAverage isAddress r w) /\
  (AppRead.loadOrSign w = inl None ->
   forall e, e ∈ AppRead.getAverage isAddress r w ->
     match e with
     | AppRead.UserDecrypt _ _ _ | AppRead.SetAvgClear _ => False
     | _ => True
     end).
Proof.
  assert (Hrun : AppRead.canGetAvg isAddress r = true ->
    exists user c,
      App.signer r = Some user /\ App.address (App.contractMeta r) = Some c /\
      isAddress (App.target r) = true /\
      AppRead.getAverage isAddress r w =
        AppRead.SetStatus "Preparing to retrieve average rating..." ::
        AppRead.SetStatus "Requesting wallet access..." ::
        AppRead.RequestAccounts ::
        match AppRead.requestAccounts w with
        | Some e => AppRead.walletFailed e
        | None =>
        AppRead.GetAddress ::
        match AppRead.getAddress w with
        | Some e => AppRead.walletFailed e
        | None =>
        AppRead.SetStatus "Granting decryption permission on blockchain..." ::
        AppRead.SendGetEncryptedAverage c (App.target r) ::
        match AppRead.sent w with
        | Some e => AppRead.failed e
        | None =>
        AppRead.WaitReceipt ::
        match AppRead.mined w with
        | Some e => AppRead.failed e
        | None =>
        AppRead.SetStatus "Retrieving encrypted average..." ::
        AppRead.StaticCallGetEncryptedAverage c (App.target r) ::
        match AppRead.staticCall w with
        | inr e => AppRead.failed e
        | inl handle =>
        AppRead.SetAvgHandle handle ::
        AppRead.SetStatus "Requesting signature for decryption..." ::
        AppRead.LoadOrSign [c] user ::
        match AppRead.loadOrSign w with
        | inr e => AppRead.failed e
        | inl None => [AppRead.SetStatus "Signature creation failed. Please try again."]
        | inl (Some sig) =>
        AppRead.SetStatus "Decrypting average rating..." ::
        AppRead.UserDecrypt handle c sig ::
        match AppRead.userDecrypt w with
        | inr e => AppRead.failed e
        | inl value =>
            [AppRead.SetAvgClear value;
             AppRead.SetStatus "Average rating decrypted successfully!"]
        end end end end end end end).
  { intros Hcan.
    destruct (canGetAvg_true isAddress r Hcan) as (i & user & pr & c & Hi & Hs & Hp & Ha & Ht & Hadr).
    exists user, c. split; [done|]. split; [done|]. split; [done|].
    unfold AppRead.getAverage. rewrite Hcan, Hi, Hs, Hp, Ha, Ht. reflexivity. }
  assert (Hoff : AppRead.canGetAvg isAddress r = false -> AppRead.getAverage isAddress r w = []).
  { intros Hcan. unfold AppRead.getAverage. by rewrite Hcan. }
  split; [exact Hoff|]. split; [|split; [|split]].
  - unfold App.canSubmit, AppRead.canGetAvg. rewrite !andb_true_iff. tauto.
  - intros h c sig Hin.
    destruct (AppRead.canGetAvg isAddress r) eqn:Hcan;
      [|rewrite Hoff in Hin by done; by apply elem_of_nil in Hin].
    destruct (Hrun eq_refl) as (user & c' & Hs & Ha & Hadr & Heq).
    rewrite Heq in Hin |- *. exists user.
    unfold AppRead.walletFailed, AppRead.failed in Hin.
    destruct (AppRead.requestAccounts w), (AppRead.getAddress w), (AppRead.sent w),
      (AppRead.mined w), (AppRead.staticCall w) as [h'|], (AppRead.loadOrSign w) as [[sig'|]|],
      (AppRead.userDecrypt w) as [v|];
      repeat (apply elem_of_cons in Hin as [Hin|Hin]; [try discriminate Hin|]);
      try (by apply elem_of_nil in Hin);
      injection Hin as -> -> ->; done.
  - intros value Hin.
    destruct (AppRead.canGetAvg isAddress r) eqn:Hcan;
      [|rewrite Hoff in Hin by done; by apply elem_of_nil in Hin].
    destruct (Hrun eq_refl) as (user & c' & Hs & Ha & Hadr & Heq).
    rewrite Heq in Hin |- *.
    unfold AppRead.walletFailed, AppRead.failed in Hin.
    destruct (AppRead.requestAccounts w), (AppRead.getAddress w), (AppRead.sent w),
      (AppRead.mined w), (AppRead.staticCall w) as [h'|], (AppRead.loadOrSign w) as [[sig'|]|],
      (AppRead.userDecrypt w) as [v|];
      repeat (apply elem_of_cons in Hin as [Hin|Hin]; [try discriminate Hin|]);
      try (by apply elem_of_nil in Hin).
    injection Hin as ->. split; [done|]. exists h', c', sig'.
    do 13 (apply elem_of_cons; right). apply elem_of_cons. by left.
  - intros Hsig e Hin.
    destruct (AppRead.canGetAvg isAddress r) eqn:Hcan;
      [|rewrite Hoff in Hin by done; by apply elem_of_nil in Hin].
    destruct (Hrun eq_refl) as (user & c' & Hs & Ha & Hadr & Heq).
    rewrite Heq, Hsig in Hin.
    unfold AppRead.walletFailed, AppRead.failed in Hin.
    destruct (AppRead.requestAccounts w), (AppRead.getAddress w), (AppRead.sent w),
      (AppRead.mined w), (AppRead.staticCall w) as [h'|];
      repeat (apply elem_of_cons in Hin as [Hin|Hin]; [by subst e|]);
      by apply elem_of_nil in Hin.
Qed.

Lemma getAverage_flow_witness :
  let isAddress := fun t : string => (String.length t =? 42)%nat in
  let r := App.mkRender (Some tt) (Some "0xabc"%string) (Some tt)
             (App.mkContractMeta (Some "0xdef"%string)) 9
             "0x0000000000000000000000000000000000000007" in
  let declined := AppRead.mkWorld None None None None (inl "0xh"%string) (inl None)
                    (inl (Some 366)) in
  AppRead.canGetAvg isAddress r = true /\ App.canSubmit isAddress r = false /\
  AppRead.SetAvgClear (Some 366) ∉ AppRead.getAverage isAddress r declined.
Proof.
  intros isAddress r declined.
  split; [vm_compute; reflexivity|]. split; [vm_compute; reflexivity|].
  intros Hin.
  exact (proj2 (proj2 (proj2 (proj2 (getAverage_flow isAddress r declined)))) eq_refl _ Hin).
Defined.
